(** * Verification of [build_uml_diagram.py]

    A shallow embedding of the documentation generator: the class
    extractor ([UMLClassVisitor]), the module-level function extractor
    ([parse_module_functions]), the package aggregators
    ([parse_directory], [parse_directory_module_functions]) and the two
    renderers ([generate_plantuml], [generate_module_functions_doc]).

    Python values are modelled as follows.
    - [str]: [string]; a Rocq string is a sequence of bytes, read as the
      UTF-8 encoding of the Python string.  Byte-wise lexicographic order
      on UTF-8 text coincides with Python's code point order.
    - [set] of [str]: [gset string].
    - [dict] with [str] keys: an association list in insertion order
      without repeated keys ([dict]); assigning to a present key keeps
      its position and replaces its value, as CPython does.
    - [list]: [list]. *)

From Stdlib Require Import Ascii.
From Stdlib Require String.
From stdpp Require Import gmap strings list sorting.

Local Open Scope stdpp_scope.

(** ** Strings *)

(** The line feed character of ["\n".join(...)]. *)
Definition LF : string := String (Ascii.ascii_of_nat 10) "".

(** [s.startswith(p)] *)
Definition startswith (s p : string) : bool := String.prefix p s.

(** [s.endswith(p)] *)
Definition endswith (s p : string) : bool :=
  String.prefix (String.rev p) (String.rev s).

(** [sep.join(l)] *)
Definition join (sep : string) (l : list string) : string :=
  String.concat sep l.

(** Truth value of a string: non-empty. *)
Definition nonempty (s : string) : bool :=
  match s with EmptyString => false | String _ _ => true end.

(** ** Dictionaries *)

Definition dict (V : Type) : Type := list (string * V).

Section Dict.
Context {V : Type}.

(** [d.get(k)] *)
Fixpoint dict_get (k : string) (d : dict V) : option V :=
  match d with
  | [] => None
  | (k', v) :: d' => if decide (k = k') then Some v else dict_get k d'
  end.

(** [d[k] = v] *)
Fixpoint dict_set (k : string) (v : V) (d : dict V) : dict V :=
  match d with
  | [] => [(k, v)]
  | (k', v') :: d' =>
      if decide (k = k') then (k', v) :: d' else (k', v') :: dict_set k v d'
  end.

(** [d.keys()] and [d.items()] in iteration order. *)
Definition keys (d : dict V) : list string := d.*1.
Definition items (d : dict V) : list (string * V) := d.

(** Truth value of a dictionary: non-empty. *)
Definition dict_nonempty (d : dict V) : bool :=
  match d with [] => false | _ :: _ => true end.

(** Well-formed dictionaries have pairwise distinct keys. *)
Definition dict_wf (d : dict V) : Prop := NoDup (keys d).
End Dict.

(** ** [sorted] *)

(** [sorted(l, key=key)] for string keys: a stable sort.  Elements are
    inserted from the right, each one in front of the first element whose
    key is not smaller, so elements with equal keys keep their order. *)
Section Sorted.
Context {A : Type} (key : A → string).

Fixpoint sorted_insert (x : A) (l : list A) : list A :=
  match l with
  | [] => [x]
  | y :: l' =>
      if String.leb (key x) (key y) then x :: y :: l'
      else y :: sorted_insert x l'
  end.

Definition sorted_by (l : list A) : list A := foldr sorted_insert [] l.
End Sorted.

(** [sorted(l)] on a list of strings. *)
Definition sorted (l : list string) : list string := sorted_by id l.

(** [sorted(d.items())]: tuples compare by key first and the keys of a
    dictionary are distinct, so the values are never compared. *)
Definition sorted_items {V} (d : dict V) : list (string * V) := sorted_by fst d.


(** ** Syntax trees

    The part of Python's [ast] that the program inspects.  Expressions
    are opaque to the program except for the node kind of an assignment
    target and, for an attribute target, the node kind and identifier of
    its value; every other expression is rendered by [ast.unparse]. *)

#[local] Set Warnings "-register-all".

Inductive expr : Type :=
| Name (id : string)
| Attribute (value : expr) (attr : string)
| Subscript (value : expr) (slice : expr)
| Tuple (elts : list expr)
| Constant (repr : string).

(** [ast.arg]: the field [arg] is the parameter's name. *)
Record arg : Type := Arg { arg_name : string; arg_annotation : option expr }.

(** [ast.arguments] (the default values, which the program never reads,
    are left out). *)
Record arguments : Type := Arguments {
  posonlyargs : list arg;
  args : list arg;
  vararg : option arg;
  kwonlyargs : list arg;
  kwarg : option arg
}.

(** Statement-level nodes.  [ClassDef] also carries bases, keywords and
    decorators, which are expressions the program never reads.
    [ExceptHandler] is the child node kind of [Try.handlers]; [Pass]
    stands for every statement without statement children that is not
    an assignment. *)
Inductive node : Type :=
| ClassDef (name : string) (body : list node)
| FunctionDef (name : string) (fargs : arguments) (body : list node)
    (decorator_list : list expr) (returns : option expr)
| AsyncFunctionDef (name : string) (fargs : arguments) (body : list node)
    (decorator_list : list expr) (returns : option expr)
| Assign (targets : list expr) (value : expr)
| AnnAssign (target : expr) (annotation : expr) (value : option expr)
| If (test : expr) (body orelse : list node)
| For (target iter : expr) (body orelse : list node)
| While (test : expr) (body orelse : list node)
| With (body : list node)
| Try (body handlers orelse finalbody : list node)
| ExceptHandler (body : list node)
| Pass.

(** [ast.Module] *)
Record Module_ : Type := Module { mod_body : list node }.

(** [ast.iter_child_nodes], restricted to statement-level children, in
    field order. *)
Definition iter_child_nodes (n : node) : list node :=
  match n with
  | ClassDef _ body => body
  | FunctionDef _ _ body _ _ | AsyncFunctionDef _ _ body _ _ => body
  | Assign _ _ | AnnAssign _ _ _ | Pass => []
  | If _ body orelse | For _ _ body orelse | While _ body orelse =>
      body ++ orelse
  | With body | ExceptHandler body => body
  | Try body handlers orelse finalbody =>
      body ++ handlers ++ orelse ++ finalbody
  end.

(** Nesting depth of statement blocks below a node. *)
Fixpoint depth (n : node) : nat :=
  let deepest := foldr (λ c d, Nat.max (depth c) d) 0 in
  match n with
  | ClassDef _ body => S (deepest body)
  | FunctionDef _ _ body _ _ | AsyncFunctionDef _ _ body _ _ =>
      S (deepest body)
  | Assign _ _ | AnnAssign _ _ _ | Pass => 0
  | If _ body orelse | For _ _ body orelse | While _ body orelse =>
      S (Nat.max (deepest body) (deepest orelse))
  | With body | ExceptHandler body => S (deepest body)
  | Try body handlers orelse finalbody =>
      S (Nat.max (Nat.max (deepest body) (deepest handlers))
                 (Nat.max (deepest orelse) (deepest finalbody)))
  end.

(** [ast.walk(n)]: the node and its descendants, breadth first.  The
    queue of [ast.walk] yields the nodes level by level; level [k] holds
    the nodes [k] edges below [n]. *)
Fixpoint level (k : nat) (ns : list node) : list node :=
  match k with
  | 0 => ns
  | S k' => level k' (ns ≫= iter_child_nodes)
  end.

Definition walk (n : node) : list node :=
  seq 0 (S (depth n)) ≫= (λ k, level k [n]).

(** ** Extracted records *)

(** [method_info]: the dictionary with keys ["params"] and ["return"]. *)
Record MethodInfo : Type := MethodInfo_ {
  params : list string;
  return_type : string
}.

(** The per-class dictionary stored in [UMLClassVisitor.classes]. *)
Record ClassData : Type := ClassData_ {
  data_attributes : list string;
  data_private_attributes : list string;
  data_methods : dict MethodInfo;
  data_private_methods : dict MethodInfo
}.

(** The per-function dictionary of [parse_module_functions]. *)
Record FunctionInfo : Type := FunctionInfo_ {
  fn_params : list string;
  fn_return : string;
  fn_decorators : list string
}.

(** The local variables of [visit_ClassDef] while it scans a class. *)
Record locals : Type := Locals {
  attributes : gset string;
  private_attributes : gset string;
  methods : dict MethodInfo;
  private_methods : dict MethodInfo
}.

(** The visibility test and the two branches that follow it at every
    attribute site:
    [if attr_name.startswith('_'): private_attributes.add(attr_name)
     else: attributes.add(attr_name)]. *)
Definition add_attribute (attr_name : string) (st : locals) : locals :=
  if startswith attr_name "_"
  then Locals (attributes st) ({[attr_name]} ∪ private_attributes st)
         (methods st) (private_methods st)
  else Locals ({[attr_name]} ∪ attributes st) (private_attributes st)
         (methods st) (private_methods st).

(** [if method_name.startswith('_'): private_methods[method_name] = info
     else: methods[method_name] = info]. *)
Definition add_method (method_name : string) (info : MethodInfo)
    (st : locals) : locals :=
  if startswith method_name "_"
  then Locals (attributes st) (private_attributes st)
         (methods st) (dict_set method_name info (private_methods st))
  else Locals (attributes st) (private_attributes st)
         (dict_set method_name info (methods st)) (private_methods st).

Section Extractors.
(** [ast.unparse]; [None] when it raises. *)
Variable unparse : expr → option string.

(** [try: s = ast.unparse(e) except Exception: s = ""], guarded by
    [if e:] with [""] as the other branch. *)
Definition unparse_text (e : option expr) : string :=
  match e with
  | Some e' => default "" (unparse e')
  | None => ""
  end.

(** One parameter of a signature:
    [f"{arg.arg}: {annotation_str}"] or [arg.arg]. *)
Definition render_param (a : arg) : string :=
  let annotation_str := unparse_text (arg_annotation a) in
  if nonempty annotation_str
  then arg_name a +:+ ": " +:+ annotation_str
  else arg_name a.

(** The parameter loop of [visit_ClassDef] over [stmt.args.args]. *)
Definition method_param_list (a : arguments) : list string :=
  foldl (λ param_list x,
           if decide (arg_name x = "self") then param_list
           else param_list ++ [render_param x])
        [] (args a).

(** The parameter loop of [parse_module_functions] over
    [node.args.args]. *)
Definition function_param_list (a : arguments) : list string :=
  foldl (λ param_list x, param_list ++ [render_param x]) [] (args a).

(** The first loop of [visit_ClassDef]: class-level attributes. *)
Definition class_level_target (target : expr) (st : locals) : locals :=
  match target with
  | Name attr_name => add_attribute attr_name st
  | _ => st
  end.

Definition class_level_stmt (st : locals) (stmt : node) : locals :=
  match stmt with
  | Assign targets _ =>
      foldl (λ st' target, class_level_target target st') st targets
  | AnnAssign target _ _ => class_level_target target st
  | _ => st
  end.

(** The scan of the initializer: every [Assign] among [ast.walk(stmt)]
    whose target is an attribute of the name [self]. *)
Definition self_target (target : expr) (st : locals) : locals :=
  match target with
  | Attribute (Name id) attr_name =>
      if decide (id = "self") then add_attribute attr_name st else st
  | _ => st
  end.

Definition scan_init (stmt : node) (st : locals) : locals :=
  foldl (λ st' n,
           match n with
           | Assign targets _ =>
               foldl (λ st'' target, self_target target st'') st' targets
           | _ => st'
           end)
        st (walk stmt).

(** The second loop of [visit_ClassDef]: methods.  The first [if]
    ends the iteration ([continue]) for a name that starts and ends
    with two underscores. *)
Definition method_stmt (st : locals) (stmt : node) : locals :=
  match stmt with
  | FunctionDef method_name fargs _ _ returns =>
      if startswith method_name "__" && endswith method_name "__" then st
      else
        let method_info :=
          MethodInfo_ (method_param_list fargs) (unparse_text returns) in
        let st' := add_method method_name method_info st in
        if decide (method_name = "__init__") then scan_init stmt st'
        else st'
  | _ => st
  end.

(** The dictionary [visit_ClassDef] stores for a class with this body. *)
Definition class_record (body : list node) : ClassData :=
  let st := foldl class_level_stmt (Locals ∅ ∅ [] []) body in
  let st := foldl method_stmt st body in
  ClassData_ (sorted (elements (attributes st)))
             (sorted (elements (private_attributes st)))
             (methods st) (private_methods st).

(** [NodeVisitor.visit]: [visit_ClassDef] on a class definition (store
    the record under the class name, then [generic_visit]), and
    [generic_visit] on every other node: visit the children in field
    order.  The state is [self.classes]. *)
Fixpoint visit (n : node) (classes : dict ClassData) : dict ClassData :=
  let visit_each := foldl (λ c child, visit child c) in
  match n with
  | ClassDef class_name body =>
      visit_each (dict_set class_name (class_record body) classes) body
  | FunctionDef _ _ body _ _ | AsyncFunctionDef _ _ body _ _ =>
      visit_each classes body
  | Assign _ _ | AnnAssign _ _ _ | Pass => classes
  | If _ body orelse | For _ _ body orelse | While _ body orelse =>
      visit_each (visit_each classes body) orelse
  | With body | ExceptHandler body => visit_each classes body
  | Try body handlers orelse finalbody =>
      visit_each
        (visit_each (visit_each (visit_each classes body) handlers) orelse)
        finalbody
  end.

(** [visitor = UMLClassVisitor(); visitor.visit(tree)] on a module. *)
Definition visit_Module (tree : Module_) : dict ClassData :=
  foldl (λ c child, visit child c) [] (mod_body tree).
End Extractors.

(** ** Paths *)

(** [s.replace(os.sep, ".")] with the POSIX separator. *)
Fixpoint replace_sep (s : string) : string :=
  match s with
  | EmptyString => EmptyString
  | String c s' =>
      String (if decide (c = "/"%char) then "."%char else c) (replace_sep s')
  end.

(** [os.path.join(a, b)] of [posixpath]. *)
Definition path_join (a b : string) : string :=
  if startswith b "/" then b
  else if negb (nonempty a) || endswith a "/" then a +:+ b
  else a +:+ "/" +:+ b.

(** [s.rfind(c)] for a one-character [c], counting from index [i];
    [None] is Python's [-1]. *)
Fixpoint rfind_from (c : ascii) (s : string) (i : nat) : option nat :=
  match s with
  | EmptyString => None
  | String a s' =>
      match rfind_from c s' (S i) with
      | Some j => Some j
      | None => if decide (a = c) then Some i else None
      end
  end.

Definition rfind (c : ascii) (s : string) : option nat := rfind_from c s 0.

(** [os.path.splitext(p)[0]] ([genericpath._splitext]): the text before
    the last dot, unless that dot is not after the last separator or only
    dots stand between the separator and it. *)
Definition splitext_root (p : string) : string :=
  match rfind "."%char p with
  | None => p
  | Some dotIndex =>
      let filenameIndex :=
        match rfind "/"%char p with
        | Some sepIndex => S sepIndex
        | None => 0
        end in
      if decide (filenameIndex ≤ dotIndex) then
        if forallb (λ i, bool_decide (String.get i p = Some "."%char))
                   (seq filenameIndex (dotIndex - filenameIndex))
        then p
        else String.substring 0 dotIndex p
      else p
  end.

(** ** Files and directories *)

(** The result of a call that may raise: the value, or the text of the
    exception. *)
Inductive outcome (A : Type) : Type :=
| Returned (a : A)
| Raised (e : string).
Arguments Returned {A} a.
Arguments Raised {A} e.

(** An entry of the aggregate built by [parse_directory]. *)
Record ClassEntry : Type := ClassEntry_ {
  class_name : string;
  data : ClassData;
  module : string
}.

(** An entry of the aggregate built by [parse_directory_module_functions]. *)
Record ModuleEntry : Type := ModuleEntry_ {
  entry_module : string;
  functions : dict FunctionInfo
}.

Section Files.
Variable unparse : expr → option string.
(** [open(filepath, "r", encoding="utf-8").read()] *)
Variable read_text : string → outcome string.
(** [ast.parse(file_contents, filename=filepath)] *)
Variable ast_parse : string → string → outcome Module_.
(** [os.path.relpath(current_dir, root_dir)] *)
Variable relpath : string → string → string.
(** [os.walk(root_dir)]: directory path, directory names, file names. *)
Variable os_walk : string → list (string * list string * list string).

(** The body of the [try] block shared by both parsers. *)
Definition load (filepath : string) : outcome Module_ :=
  match read_text filepath with
  | Returned file_contents => ast_parse file_contents filepath
  | Raised e => Raised e
  end.

(** [print(f"Error parsing {filepath}: {e}")] *)
Definition parse_error (filepath e : string) : string :=
  "Error parsing " +:+ filepath +:+ ": " +:+ e.

(** [parse_python_file]: the returned dictionary and the printed
    lines. *)
Definition parse_python_file (filepath : string)
    : dict ClassData * list string :=
  match load filepath with
  | Raised e => ([], [parse_error filepath e])
  | Returned tree => (visit_Module unparse tree, [])
  end.

(** The decorator loop of [parse_module_functions]. *)
Definition decorator_texts (decorator_list : list expr) : list string :=
  foldl (λ decorators decorator,
           let decorator_str := default "" (unparse decorator) in
           if nonempty decorator_str then decorators ++ [decorator_str]
           else decorators)
        [] decorator_list.

(** One iteration of [for node in tree.body]. *)
Definition module_function_stmt (functions : dict FunctionInfo) (n : node)
    : dict FunctionInfo :=
  match n with
  | FunctionDef func_name fargs _ decorator_list returns =>
      dict_set func_name
        (FunctionInfo_ (function_param_list unparse fargs)
                       (unparse_text unparse returns)
                       (decorator_texts decorator_list))
        functions
  | _ => functions
  end.

(** [parse_module_functions]: the returned dictionary and the printed
    lines. *)
Definition parse_module_functions (filepath : string)
    : dict FunctionInfo * list string :=
  match load filepath with
  | Raised e => ([], [parse_error filepath e])
  | Returned tree => (foldl module_function_stmt [] (mod_body tree), [])
  end.

(** [compute_package_name] *)
Definition compute_package_name (root_dir current_dir : string) : string :=
  let rel_path := relpath current_dir root_dir in
  if decide (rel_path = ".") then "root" else replace_sep rel_path.

(** [packages[package_name].append(entry)] on a key that is present
    (absent keys are created first, see [ensure_key]). *)
Definition append_to {E} (package_name : string) (entry : E)
    (packages : dict (list E)) : dict (list E) :=
  dict_set package_name
    (default [] (dict_get package_name packages) ++ [entry]) packages.

(** [if package_name not in packages: packages[package_name] = []] *)
Definition ensure_key {E} (package_name : string)
    (packages : dict (list E)) : dict (list E) :=
  match dict_get package_name packages with
  | Some _ => packages
  | None => dict_set package_name [] packages
  end.

(** One iteration of [for filename in filenames] in
    [parse_directory]; the state is [packages] and the printed lines. *)
Definition parse_directory_file (package_name dirpath : string)
    (st : dict (list ClassEntry) * list string) (filename : string)
    : dict (list ClassEntry) * list string :=
  let '(packages, stdout) := st in
  if endswith filename ".py" then
    let filepath := path_join dirpath filename in
    let '(file_classes, printed) := parse_python_file filepath in
    if dict_nonempty file_classes then
      let packages := ensure_key package_name packages in
      let module_name := splitext_root filename in
      (foldl (λ pk '(class_name, data),
                append_to package_name
                  (ClassEntry_ class_name data module_name) pk)
             packages (items file_classes),
       stdout ++ printed)
    else (packages, stdout ++ printed)
  else st.

(** One iteration of [for dirpath, _, filenames in os.walk(root_dir)]. *)
Definition parse_directory_dir (root_dir : string)
    (st : dict (list ClassEntry) * list string)
    (d : string * list string * list string)
    : dict (list ClassEntry) * list string :=
  let '(dirpath, _, filenames) := d in
  let package_name := compute_package_name root_dir dirpath in
  foldl (parse_directory_file package_name dirpath) st filenames.

(** [parse_directory]: the returned aggregate and the printed lines. *)
Definition parse_directory (root_dir : string)
    : dict (list ClassEntry) * list string :=
  foldl (parse_directory_dir root_dir) ([], []) (os_walk root_dir).

(** The same three loops of [parse_directory_module_functions]. *)
Definition parse_functions_file (package_name dirpath : string)
    (st : dict (list ModuleEntry) * list string) (filename : string)
    : dict (list ModuleEntry) * list string :=
  let '(modules, stdout) := st in
  if endswith filename ".py" then
    let filepath := path_join dirpath filename in
    let '(funcs, printed) := parse_module_functions filepath in
    if dict_nonempty funcs then
      let modules := ensure_key package_name modules in
      let module_name := splitext_root filename in
      (append_to package_name (ModuleEntry_ module_name funcs) modules,
       stdout ++ printed)
    else (modules, stdout ++ printed)
  else st.

Definition parse_functions_dir (root_dir : string)
    (st : dict (list ModuleEntry) * list string)
    (d : string * list string * list string)
    : dict (list ModuleEntry) * list string :=
  let '(dirpath, _, filenames) := d in
  let package_name := compute_package_name root_dir dirpath in
  foldl (parse_functions_file package_name dirpath) st filenames.

Definition parse_directory_module_functions (root_dir : string)
    : dict (list ModuleEntry) * list string :=
  foldl (parse_functions_dir root_dir) ([], []) (os_walk root_dir).
End Files.

(** ** Renderers *)

(** [Counter(iterable)]: a dictionary of counts; a missing key counts
    zero. *)
Definition counter_get (c : dict nat) (k : string) : nat :=
  default 0 (dict_get k c).

Definition Counter (l : list string) : dict nat :=
  foldl (λ c k, dict_set k (S (counter_get c k)) c) [] l.

(** The opening lines of the diagram. *)
Definition uml_header : list string :=
  ["@startuml"; "skinparam pageMargin 50"; "skinparam pageWidth 3000";
   "left to right direction"; "direction LR"].

(** The name a class is shown under:
    [f"{orig_name} ({entry['module']})"] when its name is counted more
    than once, [orig_name] otherwise. *)
Definition display_name (class_name_counts : dict nat) (entry : ClassEntry)
    : string :=
  let orig_name := class_name entry in
  if decide (1 < counter_get class_name_counts orig_name)
  then orig_name +:+ " (" +:+ module entry +:+ ")"
  else orig_name.

(** A method line; [glyph] is ["+"] in the loop over [methods] and ["-"]
    in the loop over [private_methods]. *)
Definition method_line (glyph : string) (m : string * MethodInfo) : string :=
  let '(method, info) := m in
  let param_str := join ", " (params info) in
  if nonempty (return_type info)
  then "    " +:+ glyph +:+ " " +:+ method +:+ "(" +:+ param_str +:+ ") : "
         +:+ return_type info
  else "    " +:+ glyph +:+ " " +:+ method +:+ "(" +:+ param_str +:+ ")".

(** The lines appended for one entry of a package. *)
Definition class_lines (class_name_counts : dict nat) (entry : ClassEntry)
    : list string :=
  let d := data entry in
  ["  class " +:+ display_name class_name_counts entry +:+ " {"]
  ++ ((λ attr, "    + " +:+ attr) <$> data_attributes d)
  ++ ((λ attr, "    - " +:+ attr) <$> data_private_attributes d)
  ++ (method_line "+" <$> items (data_methods d))
  ++ (method_line "-" <$> items (data_private_methods d))
  ++ ["  }"].

(** The lines appended for one item of [packages]. *)
Definition package_lines (p : string * list ClassEntry) : list string :=
  let '(pkg, class_entries) := p in
  let class_name_counts := Counter (class_name <$> class_entries) in
  ["package " +:+ pkg +:+ " {"]
  ++ (class_entries ≫= class_lines class_name_counts)
  ++ ["}"].

Definition uml_lines (packages : dict (list ClassEntry)) : list string :=
  uml_header ++ (items packages ≫= package_lines) ++ ["@enduml"].

(** [generate_plantuml] *)
Definition generate_plantuml (packages : dict (list ClassEntry)) : string :=
  join LF (uml_lines packages).

(** The signature text of one function of the listing. *)
Definition signature (f : string * FunctionInfo) : string :=
  let '(func_name, info) := f in
  let param_str := join ", " (fn_params info) in
  let signature := func_name +:+ "(" +:+ param_str +:+ ")" in
  let signature :=
    if nonempty (fn_return info)
    then signature +:+ " -> " +:+ fn_return info else signature in
  match fn_decorators info with
  | [] => signature
  | _ :: _ =>
      signature +:+ " [Decorators: " +:+ join ", " (fn_decorators info) +:+ "]"
  end.

Definition function_line (f : string * FunctionInfo) : string :=
  "    - " +:+ signature f.

(** The lines appended for one module entry. *)
Definition module_lines (entry : ModuleEntry) : list string :=
  ["  Module: " +:+ entry_module entry]
  ++ (function_line <$> sorted_items (functions entry))
  ++ [""].

(** The lines appended for one item of [modules]. *)
Definition package_doc_lines (p : string * list ModuleEntry) : list string :=
  let '(pkg, module_entries) := p in
  ["Package: " +:+ pkg]
  ++ (sorted_by entry_module module_entries ≫= module_lines)
  ++ [""].

(** ["=" * 40] *)
Definition rule : string := "========================================".

Definition doc_header : list string :=
  ["Module-Level Functions Documentation"; rule; ""].

Definition doc_lines (modules : dict (list ModuleEntry)) : list string :=
  doc_header ++ (sorted_items modules ≫= package_doc_lines).

(** [generate_module_functions_doc] *)
Definition generate_module_functions_doc (modules : dict (list ModuleEntry))
    : string :=
  join LF (doc_lines modules).

(** ** Vocabulary of the statements *)

(** The order of the keys, lifted to the elements. *)
Definition key_le {A} (key : A → string) (x y : A) : Prop :=
  String.le (key x) (key y).








(** ** Sample inputs *)

(** A rendering of the expressions used in the samples.  A tuple is
    left without a rendering, which stands for [ast.unparse] raising. *)
Fixpoint sample_unparse (e : expr) : option string :=
  match e with
  | Name id => Some id
  | Constant r => Some r
  | Attribute v a => (λ s, s +:+ "." +:+ a) <$> sample_unparse v
  | Subscript v sl =>
      s1 ← sample_unparse v; s2 ← sample_unparse sl;
      Some (s1 +:+ "[" +:+ s2 +:+ "]")
  | Tuple _ => None
  end.



(** The test of the first [if] of the method loop: the name starts and
    ends with two underscores. *)
Definition dunder (method_name : string) : bool :=
  startswith method_name "__" && endswith method_name "__".

(** The visibility rule: a name is private when it starts with an
    underscore. *)
Definition is_private (name : string) : bool := startswith name "_".

(** The attribute names held by the local sets, public and private. *)
Definition all_attributes (st : locals) : gset string :=
  attributes st ∪ private_attributes st.

(** Both sets respect the visibility rule. *)
Definition partitioned (st : locals) : Prop :=
  (∀ x, x ∈ attributes st → is_private x = false)
  ∧ (∀ x, x ∈ private_attributes st → is_private x = true).

(** The local state at the end of the two loops of [visit_ClassDef]. *)
Definition class_locals (unparse : expr → option string) (body : list node)
    : locals :=
  foldl (method_stmt unparse)
    (foldl class_level_stmt (Locals ∅ ∅ [] []) body) body.

(** A class whose initializer assigns [self.count]. *)
Definition widget_body : list node :=
  [FunctionDef "__init__" (Arguments [] [Arg "self" None] None [] None)
     [Assign [Attribute (Name "self") "count"] (Constant "0")] [] None;
   FunctionDef "resize"
     (Arguments [] [Arg "self" None; Arg "factor" (Some (Name "float"))]
        None [] None)
     [Pass] [] (Some (Constant "None"))].

(** What a step leaves alone and what it keeps. *)
Definition keeps_methods (st st' : locals) : Prop :=
  methods st' = methods st ∧ private_methods st' = private_methods st.

Definition grows (st st' : locals) : Prop :=
  all_attributes st ⊆ all_attributes st' ∧ (partitioned st → partitioned st').

(** Where the entries of the method maps come from. *)
Definition recorded_from (unparse : expr → option string)
    (body : list node) (name : string) (info : MethodInfo) : Prop :=
  ∃ fargs b decorator_list returns,
    FunctionDef name fargs b decorator_list returns ∈ body
    ∧ dunder name = false
    ∧ info = MethodInfo_ (method_param_list unparse fargs)
                         (unparse_text unparse returns).

Definition methods_from (unparse : expr → option string)
    (body : list node) (st : locals) : Prop :=
  ∀ name info,
    dict_get name (methods st) = Some info
    ∨ dict_get name (private_methods st) = Some info →
    recorded_from unparse body name info.

(** The names a class-body statement assigns to directly. *)
Definition assigns (stmt : node) (x : string) : Prop :=
  match stmt with
  | Assign targets _ => Name x ∈ targets
  | AnnAssign target _ _ => target = Name x
  | _ => False
  end.

(** A class body with class-level assignments of both visibilities. *)
Definition settings_body : list node :=
  [Assign [Name "limit"; Name "_cache"] (Constant "0");
   AnnAssign (Name "_count") (Name "int") None;
   Assign [Tuple [Name "a"; Name "b"]] (Constant "0");
   FunctionDef "__repr__" (Arguments [] [Arg "self" None] None [] None)
     [Assign [Attribute (Name "self") "shown"] (Constant "1")] []
     (Some (Name "str"))].

(** Where the entries of [parse_module_functions] come from. *)
Definition function_from (unparse : expr → option string)
    (body : list node) (name : string) (info : FunctionInfo) : Prop :=
  ∃ fargs b decorator_list returns,
    FunctionDef name fargs b decorator_list returns ∈ body
    ∧ info = FunctionInfo_ (function_param_list unparse fargs)
                           (unparse_text unparse returns)
                           (decorator_texts unparse decorator_list).

(** A signature with every kind of parameter:
    [def f(self, a, /, b: int, *rest, c, **extra)]. *)
Definition every_kind : arguments :=
  Arguments [Arg "self" None; Arg "a" None]
            [Arg "b" (Some (Name "int"))]
            (Some (Arg "rest" None))
            [Arg "c" None]
            (Some (Arg "extra" None)).

(** ** A sample project

    The directory [proj] holds [bad.py], which does not parse, and two
    directories, [a/b] and [a.b], each with a file [m.py] that defines a
    class [Node]. *)

Definition sample_walk (root_dir : string)
    : list (string * list string * list string) :=
  [(root_dir, ["a"; "a.b"], ["bad.py"; "notes.txt"]);
   (root_dir +:+ "/a", ["b"], []);
   (root_dir +:+ "/a/b", [], ["m.py"]);
   (root_dir +:+ "/a.b", [], ["m.py"])].

Definition sample_read (filepath : string) : outcome string :=
  if decide (filepath = "proj/bad.py") then Returned "def broken(:"
  else if decide (filepath = "proj/a/b/m.py") then Returned "first"
  else if decide (filepath = "proj/a.b/m.py") then Returned "second"
  else Raised "[Errno 2] No such file or directory".

Definition sample_parse (file_contents filepath : string) : outcome Module_ :=
  if decide (file_contents = "first") then
    Returned (Module [ClassDef "Node" [Assign [Name "left"] (Constant "None")];
                      FunctionDef "fetch"
                        (Arguments [] [Arg "url" (Some (Name "str"))]
                           None [] None)
                        [Pass] [Name "cached"] (Some (Name "bytes"))])
  else if decide (file_contents = "second") then
    Returned (Module [ClassDef "Node" [Assign [Name "_up"] (Constant "None")]])
  else Raised "invalid syntax (<unknown>, line 1)".

(** [os.path.relpath] on the paths that [sample_walk] yields. *)
Definition sample_relpath (current_dir root_dir : string) : string :=
  if decide (current_dir = root_dir) then "."
  else String.substring (S (String.length root_dir))
         (String.length current_dir - S (String.length root_dir)) current_dir.

(** The listing of the sample project without [bad.py]. *)
Definition sample_walk_clean (root_dir : string)
    : list (string * list string * list string) :=
  [(root_dir, ["a"; "a.b"], ["notes.txt"]);
   (root_dir +:+ "/a", ["b"], []);
   (root_dir +:+ "/a/b", [], ["m.py"]);
   (root_dir +:+ "/a.b", [], ["m.py"])].

(** The number of occurrences of a name in a list. *)
Definition occurrences (k : string) (l : list string) : nat :=
  length (filter (λ x, x = k) l).

(** Two aggregates of module-level functions that differ in discovery
    order only: the packages, the module entries of each package and the
    functions of each module are the same, listed in another order. *)
Definition reordered_functions (e e' : ModuleEntry) : Prop :=
  entry_module e = entry_module e' ∧ functions e ≡ₚ functions e'.

Definition reordered_entries (es es' : list ModuleEntry) : Prop :=
  ∃ es'', es ≡ₚ es'' ∧ Forall2 reordered_functions es'' es'.

Definition reordered_package (p p' : string * list ModuleEntry) : Prop :=
  p.1 = p'.1 ∧ reordered_entries p.2 p'.2.

Definition rediscovered (modules modules' : dict (list ModuleEntry)) : Prop :=
  ∃ m'', modules ≡ₚ m'' ∧ Forall2 reordered_package m'' modules'.

(** Package names, the module names of each package and the function
    names of each module are pairwise distinct. *)
Definition distinct_names (modules : dict (list ModuleEntry)) : Prop :=
  dict_wf modules
  ∧ ∀ pkg es, (pkg, es) ∈ modules →
      NoDup (entry_module <$> es) ∧ ∀ e, e ∈ es → dict_wf (functions e).

(** The functions of two modules, discovered in two orders. *)
Definition listing_one : dict (list ModuleEntry) :=
  [("web", [ModuleEntry_ "views"
              [("show", FunctionInfo_ ["request"] "" []);
               ("fetch", FunctionInfo_ ["url: str"] "bytes" ["cached"])];
            ModuleEntry_ "forms" [("clean", FunctionInfo_ [] "" [])]]);
   ("root", [ModuleEntry_ "main" [("main", FunctionInfo_ [] "None" [])]])].

Definition listing_two : dict (list ModuleEntry) :=
  [("root", [ModuleEntry_ "main" [("main", FunctionInfo_ [] "None" [])]]);
   ("web", [ModuleEntry_ "forms" [("clean", FunctionInfo_ [] "" [])];
            ModuleEntry_ "views"
              [("fetch", FunctionInfo_ ["url: str"] "bytes" ["cached"]);
               ("show", FunctionInfo_ ["request"] "" [])]])].

(** ** Vocabulary of the further properties *)

(** A statement that defines a function of the given name with [def]. *)
Definition defines (stmt : node) (name : string) : Prop :=
  match stmt with
  | FunctionDef n _ _ _ _ => n = name
  | _ => False
  end.

(** A class body that defines [area] twice, and a helper under a
    condition. *)
Definition shape_body : list node :=
  [FunctionDef "area" (Arguments [] [Arg "self" None] None [] None)
     [Pass] [] None;
   If (Name "debug")
     [FunctionDef "dump" (Arguments [] [Arg "self" None] None [] None)
        [Pass] [] None]
     [];
   FunctionDef "area"
     (Arguments [] [Arg "self" None; Arg "unit" (Some (Name "str"))]
        None [] None)
     [Pass] [] (Some (Name "float"));
   AsyncFunctionDef "load" (Arguments [] [Arg "self" None] None [] None)
     [Pass] [] None].

(** The step that files one entry under its package:
    create the key when it is absent, then append. *)
Definition group_add {E} (d : dict (list E)) (p : string * E)
    : dict (list E) :=
  append_to p.1 p.2 (ensure_key p.1 d).

(** The entries a file contributes to the class aggregate, each with
    the package of its directory. *)
Definition file_classes_entries (unparse : expr → option string)
    (read_text : string → outcome string)
    (ast_parse : string → string → outcome Module_)
    (package_name dirpath filename : string) : list (string * ClassEntry) :=
  if endswith filename ".py" then
    (λ c : string * ClassData,
       (package_name, ClassEntry_ c.1 c.2 (splitext_root filename)))
    <$> (parse_python_file unparse read_text ast_parse
           (path_join dirpath filename)).1
  else [].

(** The classes of a directory tree in discovery order: directory by
    directory, file by file, class by class. *)
Definition discovered_classes (unparse : expr → option string)
    (read_text : string → outcome string)
    (ast_parse : string → string → outcome Module_)
    (relpath : string → string → string)
    (os_walk : string → list (string * list string * list string))
    (root_dir : string) : list (string * ClassEntry) :=
  os_walk root_dir ≫= λ d,
    d.2 ≫= file_classes_entries unparse read_text ast_parse
              (compute_package_name relpath root_dir d.1.1) d.1.1.

(** The entry a file contributes to the function aggregate, if any. *)
Definition file_functions_entries (unparse : expr → option string)
    (read_text : string → outcome string)
    (ast_parse : string → string → outcome Module_)
    (package_name dirpath filename : string) : list (string * ModuleEntry) :=
  if endswith filename ".py" then
    let funcs :=
      (parse_module_functions unparse read_text ast_parse
         (path_join dirpath filename)).1 in
    if dict_nonempty funcs
    then [(package_name, ModuleEntry_ (splitext_root filename) funcs)]
    else []
  else [].

Definition discovered_modules (unparse : expr → option string)
    (read_text : string → outcome string)
    (ast_parse : string → string → outcome Module_)
    (relpath : string → string → string)
    (os_walk : string → list (string * list string * list string))
    (root_dir : string) : list (string * ModuleEntry) :=
  os_walk root_dir ≫= λ d,
    d.2 ≫= file_functions_entries unparse read_text ast_parse
              (compute_package_name relpath root_dir d.1.1) d.1.1.

(** The error lines of the files of a directory tree that end in [.py]
    and fail to load, in discovery order. *)
Definition load_errors (read_text : string → outcome string)
    (ast_parse : string → string → outcome Module_)
    (os_walk : string → list (string * list string * list string))
    (root_dir : string) : list string :=
  os_walk root_dir ≫= λ d,
    d.2 ≫= λ filename,
      if endswith filename ".py" then
        match load read_text ast_parse (path_join d.1.1 filename) with
        | Raised e => [parse_error (path_join d.1.1 filename) e]
        | Returned _ => []
        end
      else [].

(** Values present in the dictionary are non-empty lists. *)
Definition no_empty_group {E} (d : dict (list E)) : Prop :=
  ∀ k es, dict_get k d = Some es → es ≠ [].

(** The statement kinds both loops of [visit_ClassDef] pass over:
    everything but assignments, annotated assignments and [def]. *)
Definition passed_over (stmt : node) : Prop :=
  match stmt with
  | Assign _ _ | AnnAssign _ _ _ | FunctionDef _ _ _ _ _ => False
  | _ => True
  end.

(** The characters of a string. *)
Definition chars (s : string) : list ascii := String.list_ascii_of_string s.

(** ** Site content

    [parse_site_content] and [generate_site_content_doc]. *)

(** The dictionary with keys ["path"] and ["content"]. *)
Record SiteFile : Type := SiteFile_ {
  path : string;
  content : string
}.

(** [file.endswith(('.html', '.js', '.css'))] *)
Definition site_extension (file : string) : bool :=
  endswith file ".html" || endswith file ".js" || endswith file ".css".

(** [s * n] for a string [s]. *)
Fixpoint repeat_string (s : string) (n : nat) : string :=
  match n with
  | 0 => ""
  | S n' => s +:+ repeat_string s n'
  end.

Section Site.
(** [open(filepath, "r", encoding="utf-8").read()] *)
Variable read_text : string → outcome string.
(** [os.path.relpath(filepath, root_dir)] *)
Variable relpath : string → string → string.
(** [os.walk(root_dir)] *)
Variable os_walk : string → list (string * list string * list string).
(** [len] on a string: its number of code points. *)
Variable len : string → nat.

(** One iteration of [for file in filenames]. *)
Definition parse_site_file (root_dir dirpath : string)
    (site_files : list SiteFile) (file : string) : list SiteFile :=
  if site_extension file then
    let filepath := path_join dirpath file in
    let content :=
      match read_text filepath with
      | Returned text => text
      | Raised e => "Error reading file: " +:+ e
      end in
    let relative_path := relpath filepath root_dir in
    site_files ++ [SiteFile_ relative_path content]
  else site_files.

(** [parse_site_content] *)
Definition parse_site_content (root_dir : string) : list SiteFile :=
  foldl (λ site_files (d : string * list string * list string),
           let '(dirpath, _, filenames) := d in
           foldl (parse_site_file root_dir dirpath) site_files filenames)
        [] (os_walk root_dir).

(** The four lines appended for one file. *)
Definition site_file_lines (file_info : SiteFile) : list string :=
  let header := "File: " +:+ path file_info in
  [header; repeat_string "-" (len header); content file_info;
   LF +:+ rule +:+ LF].

Definition site_doc_lines (site_files : list SiteFile) : list string :=
  ["Site Content Documentation"; rule; ""]
  ++ (sorted_by path site_files ≫= site_file_lines).

(** [generate_site_content_doc] *)
Definition generate_site_content_doc (site_files : list SiteFile) : string :=
  join LF (site_doc_lines site_files).
End Site.

(** The record [parse_site_content] makes for a file. *)
Definition site_record (read_text : string → outcome string)
    (relpath : string → string → string)
    (root_dir dirpath file : string) : SiteFile :=
  SiteFile_ (relpath (path_join dirpath file) root_dir)
    match read_text (path_join dirpath file) with
    | Returned text => text
    | Raised e => "Error reading file: " +:+ e
    end.

(** A listing with a page, a script that cannot be read and a text
    file. *)
Definition site_walk (root_dir : string)
    : list (string * list string * list string) :=
  [(root_dir, ["static"], ["index.html"; "notes.txt"]);
   (root_dir +:+ "/static", [], ["app.js"])].

Definition site_read (filepath : string) : outcome string :=
  if decide (filepath = "site/index.html") then Returned "<html></html>"
  else Raised "[Errno 13] Permission denied".

Definition site_relpath (filepath root_dir : string) : string :=
  String.substring (S (String.length root_dir))
    (String.length filepath - S (String.length root_dir)) filepath.

(** The number of lines that pass a test. *)
Definition count_lines (t : string → bool) (l : list string) : nat :=
  length (filter (λ x, t x = true) l).


(** [text.split("\n")]: the lines of a text. *)
Fixpoint split_lines (text : string) : list string :=
  match text with
  | EmptyString => [""]
  | String c text' =>
      let rest := split_lines text' in
      if Ascii.eqb c (Ascii.ascii_of_nat 10) then "" :: rest
      else String c (hd "" rest) :: tl rest
  end.

(** A string that holds no line feed. *)
Fixpoint no_line_feed (s : string) : bool :=
  match s with
  | EmptyString => true
  | String c s' => negb (Ascii.eqb c (Ascii.ascii_of_nat 10)) && no_line_feed s'
  end.

(** An aggregate none of whose names and signature texts holds a line
    feed. *)
Definition plain_method (m : string * MethodInfo) : bool :=
  no_line_feed m.1 && forallb no_line_feed (params m.2)
  && no_line_feed (return_type m.2).

Definition plain_entry (entry : ClassEntry) : bool :=
  no_line_feed (class_name entry) && no_line_feed (module entry)
  && forallb no_line_feed (data_attributes (data entry))
  && forallb no_line_feed (data_private_attributes (data entry))
  && forallb plain_method (data_methods (data entry))
  && forallb plain_method (data_private_methods (data entry)).

Definition plain_aggregate (packages : dict (list ClassEntry)) : bool :=
  forallb (λ p, no_line_feed p.1 && forallb plain_entry p.2) packages.

(** An aggregate of one package with two classes. *)
Definition small_diagram : dict (list ClassEntry) :=
  [("shop",
    [ClassEntry_ "Cart"
       (ClassData_ ["items"] ["_total"]
          [("add", MethodInfo_ ["item: Item"; "count"] "None")]
          [("_sum", MethodInfo_ [] "")])
       "cart";
     ClassEntry_ "Item" (ClassData_ [] [] [] []) "item"])].

(** ** The renderers as programs over a store

    A renderer is handed a reference to the aggregate and builds its
    text in a local list.  To state what a call leaves behind, the two
    renderers are written here as the source runs them: a program acts on
    the object the caller passed and on the local list of lines.  The
    module has no global variable, so the object is all that outlives a
    call. *)

Section Programs.
Context {O : Type}.

(** A program: from the object and the local list to a result, the
    object and the local list. *)
Definition prog (A : Type) : Type := O * list string → A * (O * list string).

Definition ret {A} (a : A) : prog A := λ s, (a, s).

Definition bind {A B} (m : prog A) (k : A → prog B) : prog B :=
  λ s, let '(a, s') := m s in k a s'.

(** Reading the object the parameter refers to. *)
Definition argument : prog O := λ s, (s.1, s).

(** Any statement that changes the object the parameter refers to
    ([obj[k] = v], [obj.clear()], [lst.sort()], ...). *)
Definition assign (object : O) : prog unit := λ s, (tt, (object, s.2)).

(** [lines.append(line)] on the local list. *)
Definition append (line : string) : prog unit :=
  λ s, (tt, (s.1, s.2 ++ [line])).

(** [return "\n".join(lines)] *)
Definition joined : prog string := λ s, (join LF s.2, s).

(** [for x in l: body] *)
Fixpoint for_each {X} (l : list X) (body : X → prog unit) : prog unit :=
  match l with
  | [] => ret tt
  | x :: l' => bind (body x) (λ _, for_each l' body)
  end.

(** A call: the local list is created with its first lines, the body
    runs, and the caller is left with the text and the object. *)
Definition call (first_lines : list string) (body : prog string)
    (object : O) : string * O :=
  let '(text, s) := body (object, first_lines) in (text, s.1).
End Programs.

Notation "m >> k" := (bind m (λ _, k))
  (at level 100, right associativity, only parsing).

(** [generate_plantuml] as it runs (lines 167-205). *)
Definition generate_plantuml_program
    : @prog (dict (list ClassEntry)) string :=
  bind argument (λ packages,
    for_each (items packages) (λ p,
      let '(pkg, class_entries) := p in
      append ("package " +:+ pkg +:+ " {") >>
      (let class_name_counts := Counter (class_name <$> class_entries) in
       for_each class_entries (λ entry,
         let d := data entry in
         append ("  class " +:+ display_name class_name_counts entry
                 +:+ " {") >>
         for_each (data_attributes d) (λ attr, append ("    + " +:+ attr)) >>
         for_each (data_private_attributes d)
           (λ attr, append ("    - " +:+ attr)) >>
         for_each (items (data_methods d))
           (λ m, append (method_line "+" m)) >>
         for_each (items (data_private_methods d))
           (λ m, append (method_line "-" m)) >>
         append "  }")) >>
      append "}") >>
    append "@enduml" >>
    joined).

Definition generate_plantuml_call
    : dict (list ClassEntry) → string * dict (list ClassEntry) :=
  call uml_header generate_plantuml_program.

(** [generate_module_functions_doc] as it runs (lines 292-308). *)
Definition generate_module_functions_doc_program
    : @prog (dict (list ModuleEntry)) string :=
  bind argument (λ modules,
    for_each (sorted_items modules) (λ p,
      let '(pkg, module_entries) := p in
      append ("Package: " +:+ pkg) >>
      for_each (sorted_by entry_module module_entries) (λ entry,
        append ("  Module: " +:+ entry_module entry) >>
        for_each (sorted_items (functions entry))
          (λ f, append ("    - " +:+ signature f)) >>
        append "") >>
      append "") >>
    joined).

Definition generate_module_functions_doc_call
    : dict (list ModuleEntry) → string * dict (list ModuleEntry) :=
  call doc_header generate_module_functions_doc_program.

(** A program that leaves the object alone and appends the given lines
    to the local list. *)
Definition appends {O} (m : @prog O unit) (lines : list string) : Prop :=
  ∀ s, m s = (tt, (s.1, s.2 ++ lines)).

(** * Properties *)

(** ** Dictionaries *)

Section DictFacts.
Context {V : Type}.
Implicit Types (d : dict V) (k : string) (v : V).

Lemma dict_get_set_eq k v d : dict_get k (dict_set k v d) = Some v.
Proof.
  induction d as [|[k' v'] d IH]; simpl.
  - by rewrite decide_True.
  - destruct (decide (k = k')) as [->|Hne]; simpl.
    + by rewrite decide_True.
    + by rewrite decide_False.
Qed.

Lemma dict_get_set_ne k k' v d :
  k ≠ k' → dict_get k' (dict_set k v d) = dict_get k' d.
Proof.
  intros Hne. induction d as [|[k0 v0] d IH]; simpl.
  - by rewrite decide_False.
  - destruct (decide (k = k0)) as [->|Hne0]; simpl.
    + by rewrite !decide_False.
    + by rewrite IH.
Qed.

Lemma dict_get_None k d : dict_get k d = None ↔ k ∉ keys d.
Proof.
  unfold keys. induction d as [|[k' v'] d IH]; simpl.
  - split; [intros _; apply not_elem_of_nil | done].
  - rewrite not_elem_of_cons. destruct (decide (k = k')); naive_solver.
Qed.

Lemma dict_get_Some_elem k v d : dict_get k d = Some v → (k, v) ∈ d.
Proof.
  induction d as [|[k' v'] d IH]; simpl; [done|].
  destruct (decide (k = k')) as [->|Hne].
  - intros [= ->]. apply elem_of_cons; by left.
  - intros H. apply elem_of_cons; right; auto.
Qed.

Lemma dict_get_Some_key k v d : dict_get k d = Some v → k ∈ keys d.
Proof.
  intros H. destruct (decide (k ∈ keys d)) as [|Hn]; [done|].
  apply dict_get_None in Hn. congruence.
Qed.

Lemma elem_dict_get k v d : dict_wf d → (k, v) ∈ d → dict_get k d = Some v.
Proof.
  unfold dict_wf, keys. induction d as [|[k' v'] d IH]; simpl.
  - intros _ H. by apply elem_of_nil in H.
  - rewrite NoDup_cons. intros [Hk Hd] [[= -> ->]|Hin]%elem_of_cons.
    + by case_decide.
    + case_decide as Hkk; [|auto]. subst k'.
      exfalso. apply Hk. apply list_elem_of_fmap. by exists (k, v).
Qed.

Lemma keys_dict_set k v d :
  keys (dict_set k v d) = if decide (k ∈ keys d) then keys d else keys d ++ [k].
Proof.
  unfold keys. induction d as [|[k' v'] d IH].
  - destruct (decide (k ∈ ([] : dict V).*1)) as [Hin|_]; [|done].
    by apply elem_of_nil in Hin.
  - cbn [dict_set]. destruct (decide (k = k')) as [->|Hne].
    + destruct (decide (k' ∈ ((k', v') :: d).*1)) as [_|Hn]; [done|].
      exfalso. apply Hn. rewrite fmap_cons. apply elem_of_cons. by left.
    + rewrite !fmap_cons, IH. cbn [fst].
      destruct (decide (k ∈ d.*1)) as [Hin|Hnin];
        destruct (decide (k ∈ k' :: d.*1)) as [Hin'|Hnin']; try done.
      * exfalso. apply Hnin'. apply elem_of_cons. by right.
      * apply elem_of_cons in Hin' as [?|?]; done.
Qed.

Lemma elem_keys_dict_set k k' v d :
  k' ∈ keys (dict_set k v d) ↔ k' = k ∨ k' ∈ keys d.
Proof.
  rewrite keys_dict_set. case_decide.
  - naive_solver.
  - rewrite elem_of_app, list_elem_of_singleton. naive_solver.
Qed.

Lemma dict_wf_set k v d : dict_wf d → dict_wf (dict_set k v d).
Proof.
  unfold dict_wf. rewrite keys_dict_set. case_decide; [done|].
  intros Hd. apply NoDup_app. split_and!; [done| |apply NoDup_singleton].
  intros x Hx ->%list_elem_of_singleton. done.
Qed.

Lemma dict_wf_nil : dict_wf (@nil (string * V)).
Proof. apply NoDup_nil_2. Qed.
End DictFacts.

(** ** [sorted] yields a sorted rearrangement *)

Section SortedFacts.
Context {A : Type} (key : A → string).

Lemma key_le_leb x y : key_le key x y ↔ String.leb (key x) (key y) = true.
Proof. unfold key_le, String.le. apply Is_true_true. Qed.

Lemma key_le_total x y : key_le key x y ∨ key_le key y x.
Proof. apply (total String.le). Qed.

Lemma key_le_trans x y z :
  key_le key x y → key_le key y z → key_le key x z.
Proof. unfold key_le. intros. by etrans. Qed.

Lemma sorted_insert_Permutation x l : sorted_insert key x l ≡ₚ x :: l.
Proof.
  induction l as [|y l IH]; simpl; [done|].
  destruct (String.leb (key x) (key y)); [done|].
  rewrite IH. apply Permutation_swap.
Qed.

Lemma sorted_by_Permutation l : sorted_by key l ≡ₚ l.
Proof.
  induction l as [|x l IH]; simpl; [done|].
  by rewrite sorted_insert_Permutation, IH.
Qed.

Lemma elem_of_sorted_by x l : x ∈ sorted_by key l ↔ x ∈ l.
Proof. by rewrite sorted_by_Permutation. Qed.

Lemma sorted_insert_Sorted x l :
  Sorted (key_le key) l → Sorted (key_le key) (sorted_insert key x l).
Proof.
  induction 1 as [|y l Hl IH Hhd]; simpl.
  - by repeat constructor.
  - destruct (String.leb (key x) (key y)) eqn:Hxy.
    + constructor; [by constructor|]. constructor. by apply key_le_leb.
    + constructor; [done|].
      assert (key_le key y x) as Hyx.
      { destruct (key_le_total x y) as [Hc%key_le_leb|]; [congruence|done]. }
      destruct Hhd as [|z l Hyz]; simpl; [by constructor|].
      destruct (String.leb (key x) (key z)); by constructor.
Qed.

Lemma sorted_by_Sorted l : Sorted (key_le key) (sorted_by key l).
Proof.
  induction l as [|x l IH]; simpl; [constructor|].
  by apply sorted_insert_Sorted.
Qed.

Lemma sorted_by_StronglySorted l :
  StronglySorted (key_le key) (sorted_by key l).
Proof.
  apply Sorted_StronglySorted; [|apply sorted_by_Sorted].
  intros x y z. apply key_le_trans.
Qed.

(** Inserting two elements with different keys commutes. *)
Lemma sorted_insert_comm x y l :
  key x ≠ key y →
  sorted_insert key x (sorted_insert key y l)
  = sorted_insert key y (sorted_insert key x l).
Proof.
  intros Hne.
  assert (∀ a b, String.leb (key a) (key b) = false → key_le key b a)
    as Hflip.
  { intros a b Hab.
    destruct (key_le_total a b) as [Hc%key_le_leb|]; [congruence|done]. }
  assert (String.leb (key x) (key y) = true →
          String.leb (key y) (key x) = true → False) as Hanti.
  { intros H1 H2. apply Hne. by apply String.leb_antisym. }
  induction l as [|z l IH]; simpl.
  - destruct (String.leb (key x) (key y)) eqn:Hxy,
             (String.leb (key y) (key x)) eqn:Hyx; try done.
    + exfalso; auto.
    + apply Hflip in Hxy. apply key_le_leb in Hxy. congruence.
  - destruct (String.leb (key x) (key z)) eqn:Hxz,
             (String.leb (key y) (key z)) eqn:Hyz; simpl;
      rewrite ?Hxz, ?Hyz.
    + destruct (String.leb (key x) (key y)) eqn:Hxy,
               (String.leb (key y) (key x)) eqn:Hyx; try done.
      * exfalso; auto.
      * apply Hflip in Hxy. apply key_le_leb in Hxy. congruence.
    + destruct (String.leb (key y) (key x)) eqn:Hyx.
      * assert (key_le key y z) as Hc%key_le_leb; [|congruence].
        eapply key_le_trans; by apply key_le_leb.
      * simpl. by rewrite ?Hyz.
    + destruct (String.leb (key x) (key y)) eqn:Hxy.
      * assert (key_le key x z) as Hc%key_le_leb; [|congruence].
        eapply key_le_trans; by apply key_le_leb.
      * simpl. by rewrite ?Hxz.
    + by rewrite IH.
Qed.

(** With pairwise distinct keys the result does not depend on the
    order of the input. *)
Lemma sorted_by_perm l l' :
  NoDup (key <$> l) → l ≡ₚ l' → sorted_by key l = sorted_by key l'.
Proof.
  intros Hnd Hp. induction Hp as [|x l l' Hp IH|x y l|l l' l'' Hp IH Hp' IH'].
  - done.
  - simpl. rewrite IH; [done|]. by apply NoDup_cons in Hnd as [_ ?].
  - simpl. apply sorted_insert_comm.
    rewrite !fmap_cons in Hnd. apply NoDup_cons in Hnd as [Hy _].
    intros Heq. apply Hy. rewrite Heq. apply elem_of_cons. by left.
  - rewrite IH by done. apply IH'. by rewrite <- Hp.
Qed.
End SortedFacts.

Lemma elem_of_sorted (x : string) (l : list string) : x ∈ sorted l ↔ x ∈ l.
Proof. apply elem_of_sorted_by. Qed.

(** ** Syntax trees: induction, descendants, class definitions *)





(** ** The visitor stores the classes in traversal order *)

Section VisitFacts.
Variable unparse : expr → option string.








End VisitFacts.

(** ** Classes of one file *)





(** ** Attributes and methods of one class *)

(** A property that holds initially and is kept by each iteration
    holds after a loop. *)
Lemma foldl_preserves {S X} (P : S → Prop) (f : S → X → S) (l : list X) st :
  (∀ st' x, P st' → P (f st' x)) → P st → P (foldl f st l).
Proof.
  intros step. revert st. induction l as [|x l IH]; intros st Hst; simpl; auto.
Qed.

Lemma add_attribute_methods x st :
  methods (add_attribute x st) = methods st
  ∧ private_methods (add_attribute x st) = private_methods st.
Proof. unfold add_attribute. by destruct (startswith x "_"). Qed.

Lemma add_attribute_all x st y :
  y ∈ all_attributes (add_attribute x st) ↔ y = x ∨ y ∈ all_attributes st.
Proof.
  unfold add_attribute, all_attributes.
  destruct (startswith x "_"); simpl; set_solver.
Qed.

Lemma add_attribute_partitioned x st :
  partitioned st → partitioned (add_attribute x st).
Proof.
  unfold partitioned, add_attribute, is_private. intros [Hpub Hpriv].
  destruct (startswith x "_") eqn:Hx; simpl; split; intros y Hy;
    try (by auto).
  - apply elem_of_union in Hy as [->%elem_of_singleton|]; auto.
  - apply elem_of_union in Hy as [->%elem_of_singleton|]; auto.
Qed.

Lemma add_method_attributes name info st :
  attributes (add_method name info st) = attributes st
  ∧ private_attributes (add_method name info st) = private_attributes st.
Proof. unfold add_method. by destruct (startswith name "_"). Qed.

Lemma grows_refl st : grows st st.
Proof. split; [set_solver | done]. Qed.

Lemma grows_trans st1 st2 st3 : grows st1 st2 → grows st2 st3 → grows st1 st3.
Proof. intros [? ?] [? ?]. split; [set_solver | auto]. Qed.

Lemma grows_add_attribute x st : grows st (add_attribute x st).
Proof.
  split; [|apply add_attribute_partitioned].
  intros y Hy. apply add_attribute_all. by right.
Qed.

Lemma grows_add_method name info st : grows st (add_method name info st).
Proof.
  destruct (add_method_attributes name info st) as [H1 H2].
  unfold grows, all_attributes, partitioned. rewrite H1, H2. done.
Qed.

Lemma grows_foldl {X} (f : locals → X → locals) l st :
  (∀ st' x, grows st' (f st' x)) → grows st (foldl f st l).
Proof.
  intros step. revert st. induction l as [|x l IH]; intros st; simpl.
  - apply grows_refl.
  - eapply grows_trans; [apply step | apply IH].
Qed.

Lemma keeps_methods_foldl {X} (f : locals → X → locals) l st :
  (∀ st' x, keeps_methods st' (f st' x)) → keeps_methods st (foldl f st l).
Proof.
  intros step. revert st. induction l as [|x l IH]; intros st; simpl; [done|].
  destruct (IH (f st x)) as [H1 H2], (step st x) as [H3 H4].
  split; congruence.
Qed.

Lemma class_level_target_grows t st : grows st (class_level_target t st).
Proof. destruct t; simpl; auto using grows_refl, grows_add_attribute. Qed.

Lemma class_level_target_keeps t st :
  keeps_methods st (class_level_target t st).
Proof. destruct t; simpl; try done. apply add_attribute_methods. Qed.

Lemma class_level_stmt_grows st stmt : grows st (class_level_stmt st stmt).
Proof.
  destruct stmt; simpl; try apply grows_refl.
  - apply grows_foldl. intros. apply class_level_target_grows.
  - apply class_level_target_grows.
Qed.

Lemma class_level_stmt_keeps st stmt :
  keeps_methods st (class_level_stmt st stmt).
Proof.
  destruct stmt; simpl; try done.
  - apply keeps_methods_foldl. intros. apply class_level_target_keeps.
  - apply class_level_target_keeps.
Qed.

Lemma self_target_grows t st : grows st (self_target t st).
Proof.
  destruct t as [| [] | | |]; simpl; try apply grows_refl.
  case_decide; auto using grows_refl, grows_add_attribute.
Qed.

Lemma self_target_keeps t st : keeps_methods st (self_target t st).
Proof.
  destruct t as [| [] | | |]; simpl; try done.
  case_decide; [apply add_attribute_methods | done].
Qed.

Lemma scan_init_grows stmt st : grows st (scan_init stmt st).
Proof.
  unfold scan_init. apply grows_foldl. intros st' n.
  destruct n; try apply grows_refl.
  apply grows_foldl. intros. apply self_target_grows.
Qed.

Lemma scan_init_keeps stmt st : keeps_methods st (scan_init stmt st).
Proof.
  unfold scan_init. apply keeps_methods_foldl. intros st' n.
  destruct n; try done.
  apply keeps_methods_foldl. intros. apply self_target_keeps.
Qed.

Section ClassFacts.
Variable unparse : expr → option string.

Lemma method_stmt_grows st stmt : grows st (method_stmt unparse st stmt).
Proof.
  destruct stmt; simpl; try apply grows_refl.
  destruct (startswith name "__" && endswith name "__"); [apply grows_refl|].
  case_decide.
  - eapply grows_trans; [apply grows_add_method | apply scan_init_grows].
  - apply grows_add_method.
Qed.

(** A definition whose name starts and ends with two underscores ends
    its iteration at once. *)
Lemma method_stmt_dunder st name fargs body decorator_list returns :
  dunder name = true →
  method_stmt unparse st (FunctionDef name fargs body decorator_list returns)
  = st.
Proof. unfold dunder. simpl. by intros ->. Qed.

Lemma class_level_stmt_FunctionDef st name fargs body decorator_list returns :
  class_level_stmt st (FunctionDef name fargs body decorator_list returns) = st.
Proof. done. Qed.

(** A class body with a dunder definition is processed as the body
    without it. *)
Lemma class_locals_dunder before after name fargs body decorator_list returns :
  dunder name = true →
  class_locals unparse
    (before ++ FunctionDef name fargs body decorator_list returns :: after)
  = class_locals unparse (before ++ after).
Proof.
  intros Hd. unfold class_locals. rewrite !foldl_app. cbn [foldl].
  by rewrite class_level_stmt_FunctionDef, method_stmt_dunder.
Qed.

Lemma class_record_locals body :
  class_record unparse body
  = let st := class_locals unparse body in
    ClassData_ (sorted (elements (attributes st)))
               (sorted (elements (private_attributes st)))
               (methods st) (private_methods st).
Proof. done. Qed.

Lemma recorded_from_mono body body' name info :
  body ⊆ body' →
  recorded_from unparse body name info →
  recorded_from unparse body' name info.
Proof.
  intros Hsub (fargs & b & d & r & Hin & Hrest).
  exists fargs, b, d, r. split; [by apply Hsub | done].
Qed.

Lemma methods_from_step body st stmt :
  methods_from unparse body st →
  methods_from unparse (body ++ [stmt]) (method_stmt unparse st stmt).
Proof.
  intros Hst.
  assert (methods_from unparse (body ++ [stmt]) st) as Hst'.
  { intros name info H. eapply recorded_from_mono; [|by apply Hst].
    intros x Hx. apply elem_of_app. by left. }
  destruct stmt; simpl; try done.
  destruct (startswith name "__" && endswith name "__") eqn:Hd; [done|].
  set (info := MethodInfo_ _ _).
  assert (methods_from unparse
            (body ++ [FunctionDef name fargs body0 decorator_list returns])
            (add_method name info st)) as Hadd.
  { intros k i. unfold add_method.
    destruct (startswith name "_"); simpl;
      (destruct (decide (name = k)) as [<-|Hne];
       [rewrite dict_get_set_eq | rewrite dict_get_set_ne by done]);
      intros H; try (by apply Hst');
      (destruct H as [H|H]; [|]);
      try (by apply Hst'; auto);
      injection H as <-;
      exists fargs, body0, decorator_list, returns;
      (split; [|done]; apply elem_of_app; right;
       by apply list_elem_of_singleton). }
  case_decide; [|done].
  intros k i. destruct (scan_init_keeps
    (FunctionDef name fargs body0 decorator_list returns)
    (add_method name info st)) as [-> ->]. apply Hadd.
Qed.

Lemma methods_from_foldl body st :
  methods_from unparse [] st →
  methods_from unparse body (foldl (method_stmt unparse) st body).
Proof.
  induction body as [|stmt body IH] using rev_ind; [done|].
  intros Hst. rewrite foldl_app. simpl. apply methods_from_step. auto.
Qed.

Lemma class_locals_methods_from body :
  methods_from unparse body (class_locals unparse body).
Proof.
  unfold class_locals. apply methods_from_foldl.
  destruct (keeps_methods_foldl class_level_stmt body (Locals ∅ ∅ [] []))
    as [H1 H2]; [apply class_level_stmt_keeps|].
  intros name info. rewrite H1, H2. simpl. by intros [|].
Qed.
End ClassFacts.

(** ** The class-level claims *)

Section ClassClaims.
Variable unparse : expr → option string.

Lemma class_locals_partitioned body : partitioned (class_locals unparse body).
Proof.
  unfold class_locals.
  eapply (grows_trans _ _ _ (grows_foldl _ _ _ class_level_stmt_grows)
            (grows_foldl _ _ _ (method_stmt_grows unparse))).
  split; intros x Hx; by apply elem_of_empty in Hx.
Qed.

Lemma class_level_targets_add x targets st :
  Name x ∈ targets →
  x ∈ all_attributes
        (foldl (λ st' target, class_level_target target st') st targets).
Proof.
  intros (l1 & l2 & ->)%list_elem_of_split. rewrite foldl_app. cbn [foldl].
  eapply (grows_foldl (λ st' target, class_level_target target st')).
  { intros. apply class_level_target_grows. }
  simpl. apply add_attribute_all. by left.
Qed.

Lemma class_locals_assigned body stmt x :
  stmt ∈ body → assigns stmt x → x ∈ all_attributes (class_locals unparse body).
Proof.
  intros (l1 & l2 & Hsplit)%list_elem_of_split Hx. unfold class_locals.
  eapply (grows_foldl (method_stmt unparse)); [apply method_stmt_grows|].
  rewrite Hsplit at 1. rewrite foldl_app. cbn [foldl].
  eapply (grows_foldl class_level_stmt); [apply class_level_stmt_grows|].
  destruct stmt; simpl in Hx; try done.
  - by apply class_level_targets_add.
  - subst. simpl. apply add_attribute_all. by left.
Qed.

Lemma elem_of_data_attributes body x :
  x ∈ data_attributes (class_record unparse body)
  ↔ x ∈ attributes (class_locals unparse body).
Proof.
  rewrite class_record_locals. simpl.
  by rewrite elem_of_sorted, elem_of_elements.
Qed.

Lemma elem_of_data_private_attributes body x :
  x ∈ data_private_attributes (class_record unparse body)
  ↔ x ∈ private_attributes (class_locals unparse body).
Proof.
  rewrite class_record_locals. simpl.
  by rewrite elem_of_sorted, elem_of_elements.
Qed.

Lemma assigned_name_classified body stmt x :
  stmt ∈ body → assigns stmt x →
  let record := class_record unparse body in
  if is_private x
  then x ∈ data_private_attributes record ∧ x ∉ data_attributes record
  else x ∈ data_attributes record ∧ x ∉ data_private_attributes record.
Proof.
  intros Hin Hx record. subst record.
  pose proof (class_locals_assigned body stmt x Hin Hx) as Hall.
  destruct (class_locals_partitioned body) as [Hpub Hpriv].
  unfold all_attributes in Hall. apply elem_of_union in Hall.
  destruct (is_private x) eqn:Hp;
    rewrite elem_of_data_attributes, elem_of_data_private_attributes.
  - assert (x ∉ attributes (class_locals unparse body)) as Hn.
    { intros H%Hpub. congruence. }
    split; [|done]. by destruct Hall.
  - assert (x ∉ private_attributes (class_locals unparse body)) as Hn.
    { intros H%Hpriv. congruence. }
    split; [|done]. by destruct Hall.
Qed.
End ClassClaims.

(** C3: every class-body assignment or annotated assignment to a bare
    name puts the name into exactly one of the two attribute lists of the
    class record, the private one if and only if the name starts with an
    underscore; and no name is in both lists. *)
Theorem class_body_names_are_partitioned
    (unparse : expr → option string) (body : list node) :
  let record := class_record unparse body in
  (∀ targets value x,
     Assign targets value ∈ body → Name x ∈ targets →
     if is_private x
     then x ∈ data_private_attributes record ∧ x ∉ data_attributes record
     else x ∈ data_attributes record ∧ x ∉ data_private_attributes record)
  ∧ (∀ x annotation value,
       AnnAssign (Name x) annotation value ∈ body →
       if is_private x
       then x ∈ data_private_attributes record ∧ x ∉ data_attributes record
       else x ∈ data_attributes record ∧ x ∉ data_private_attributes record)
  ∧ (∀ x, x ∈ data_private_attributes record → is_private x = true)
  ∧ (∀ x, x ∈ data_attributes record → is_private x = false)
  ∧ (∀ x, ¬ (x ∈ data_attributes record ∧ x ∈ data_private_attributes record)).
Proof.
  intros record. subst record.
  destruct (class_locals_partitioned unparse body) as [Hpub Hpriv].
  split_and!.
  - intros targets value x Hin Hx.
    by apply (assigned_name_classified unparse body (Assign targets value) x).
  - intros x annotation value Hin.
    by apply (assigned_name_classified unparse body
                (AnnAssign (Name x) annotation value) x).
  - intros x Hx%elem_of_data_private_attributes. auto.
  - intros x Hx%elem_of_data_attributes. auto.
  - intros x [H1%elem_of_data_attributes H2%elem_of_data_private_attributes].
    apply Hpub in H1. apply Hpriv in H2. congruence.
Qed.

(** C2: a method of the class body whose name starts and ends with two
    underscores, other than [__init__], is in neither method map of the
    class record, and the record is the one of the class body without the
    method: it adds nothing to the attribute lists either. *)
Theorem dunder_methods_are_left_out
    (unparse : expr → option string) (before after : list node)
    (name : string) (fargs : arguments) (body : list node)
    (decorator_list : list expr) (returns : option expr) :
  startswith name "__" = true →
  endswith name "__" = true →
  name ≠ "__init__" →
  let stmt := FunctionDef name fargs body decorator_list returns in
  let record := class_record unparse (before ++ stmt :: after) in
  (name ∉ keys (data_methods record))
  ∧ (name ∉ keys (data_private_methods record))
  ∧ record = class_record unparse (before ++ after).
Proof.
  intros Hs He _ stmt record. subst stmt record.
  assert (dunder name = true) as Hd by (unfold dunder; by rewrite Hs, He).
  assert (∀ body', ∀ info,
            dict_get name (methods (class_locals unparse body')) = Some info
            ∨ dict_get name (private_methods (class_locals unparse body'))
              = Some info → False) as Hnone.
  { intros body' info H.
    apply (class_locals_methods_from unparse body') in H
      as (? & ? & ? & ? & _ & Hnd & _). congruence. }
  rewrite !class_record_locals. simpl. split_and!.
  - apply dict_get_None.
    destruct (dict_get name _) as [info|] eqn:Hget; [|done].
    exfalso. eapply Hnone. by left.
  - apply dict_get_None.
    destruct (dict_get name _) as [info|] eqn:Hget; [|done].
    exfalso. eapply Hnone. by right.
  - by rewrite class_locals_dunder.
Qed.

(** C2 at [__repr__], whose body assigns [self.shown]. *)
Lemma dunder_methods_are_left_out_witness :
  let stmt :=
    FunctionDef "__repr__" (Arguments [] [Arg "self" None] None [] None)
      [Assign [Attribute (Name "self") "shown"] (Constant "1")] []
      (Some (Name "str")) in
  let record := class_record sample_unparse ([Pass] ++ stmt :: [Pass]) in
  ("__repr__" ∉ keys (data_methods record))
  ∧ ("__repr__" ∉ keys (data_private_methods record))
  ∧ record = class_record sample_unparse ([Pass] ++ [Pass]).
Proof.
  apply (dunder_methods_are_left_out sample_unparse [Pass] [Pass] "__repr__");
    [reflexivity | reflexivity | discriminate].
Defined.

(** C1 fails on the code: [__init__] starts and ends with two
    underscores, so the method loop ends its iteration before the method
    is recorded and before its body is scanned.  A class record is the
    one of the class body without the initializer. *)
Theorem initializer_is_skipped
    (unparse : expr → option string) (before after : list node)
    (fargs : arguments) (body : list node)
    (decorator_list : list expr) (returns : option expr) :
  class_record unparse
    (before ++ FunctionDef "__init__" fargs body decorator_list returns :: after)
  = class_record unparse (before ++ after).
Proof. rewrite !class_record_locals. by rewrite class_locals_dunder. Qed.

(** The record of a class with [self.count = 0] in its initializer and a
    method [resize]: no attribute [count], no method [__init__]. *)
Lemma widget_record :
  class_record sample_unparse widget_body
  = ClassData_ [] [] [("resize", MethodInfo_ ["factor: float"] "None")] [].
Proof. vm_compute. reflexivity. Qed.

(** The record of a class body with public and private class-level
    names; the tuple target and the dunder method add nothing. *)
Lemma settings_record :
  class_record sample_unparse settings_body
  = ClassData_ ["limit"] ["_cache"; "_count"] [] [].
Proof. vm_compute. reflexivity. Qed.

(** ** Parameter lists *)

Section ParamFacts.
Variable unparse : expr → option string.

Lemma method_param_list_spec (a : arguments) :
  method_param_list unparse a
  = render_param unparse <$> filter (λ x, arg_name x ≠ "self") (args a).
Proof.
  unfold method_param_list.
  enough (∀ l acc,
    foldl (λ param_list x,
             if decide (arg_name x = "self") then param_list
             else param_list ++ [render_param unparse x]) acc l
    = acc ++ (render_param unparse <$> filter (λ x, arg_name x ≠ "self") l))
    as H by apply (H _ []).
  induction l as [|x l IH]; intros acc; simpl.
  - by rewrite app_nil_r.
  - rewrite IH, filter_cons. destruct (decide (arg_name x = "self")) as [Hs|Hs].
    + by rewrite decide_False by (intros H; by apply H).
    + rewrite decide_True by done. by rewrite fmap_cons, <- app_assoc.
Qed.

Lemma function_param_list_spec (a : arguments) :
  function_param_list unparse a = render_param unparse <$> args a.
Proof.
  unfold function_param_list.
  enough (∀ l acc,
    foldl (λ param_list x, param_list ++ [render_param unparse x]) acc l
    = acc ++ (render_param unparse <$> l)) as H by apply (H _ []).
  induction l as [|x l IH]; intros acc; simpl.
  - by rewrite app_nil_r.
  - by rewrite IH, <- app_assoc.
Qed.

Lemma module_functions_from body :
  ∀ name info,
    dict_get name (foldl (module_function_stmt unparse) [] body) = Some info →
    function_from unparse body name info.
Proof.
  induction body as [|stmt body IH] using rev_ind.
  { intros name info H. done. }
  intros name info. rewrite foldl_app. cbn [foldl].
  assert (∀ i, function_from unparse body name i →
               function_from unparse (body ++ [stmt]) name i) as Hmono.
  { intros i (fa & b & d & r & Hin & Hi). exists fa, b, d, r.
    split; [apply elem_of_app; by left | done]. }
  destruct stmt; simpl; try (intros H; by apply Hmono, IH).
  destruct (decide (name0 = name)) as [->|Hne].
  - rewrite dict_get_set_eq. intros [= <-].
    exists fargs, body0, decorator_list, returns.
    split; [apply elem_of_app; right; by apply list_elem_of_singleton | done].
  - rewrite dict_get_set_ne by done. intros H. by apply Hmono, IH.
Qed.
End ParamFacts.

(** C10: the parameter list of every recorded method and of every
    recorded module-level function is read off [args.args] alone.  A
    method's list renders the plain parameters not named [self], in order;
    a function's list renders the plain parameters, in order.  Positional-only
    parameters, [*args], keyword-only parameters and [**kwargs] never
    enter the list: replacing them leaves it unchanged. *)
Theorem parameter_lists_hold_plain_parameters_only
    (unparse : expr → option string) :
  (∀ body name info,
     dict_get name (data_methods (class_record unparse body)) = Some info
     ∨ dict_get name (data_private_methods (class_record unparse body))
       = Some info →
     ∃ fargs b decorator_list returns,
       FunctionDef name fargs b decorator_list returns ∈ body
       ∧ params info
         = render_param unparse
           <$> filter (λ x, arg_name x ≠ "self") (args fargs))
  ∧ (∀ read_text ast_parse filepath tree name info,
       load read_text ast_parse filepath = Returned tree →
       dict_get name
         (parse_module_functions unparse read_text ast_parse filepath).1
       = Some info →
       ∃ fargs b decorator_list returns,
         FunctionDef name fargs b decorator_list returns ∈ mod_body tree
         ∧ fn_params info = render_param unparse <$> args fargs)
  ∧ (∀ a po va ko kw,
       method_param_list unparse (Arguments po (args a) va ko kw)
       = method_param_list unparse a
       ∧ function_param_list unparse (Arguments po (args a) va ko kw)
         = function_param_list unparse a).
Proof.
  split_and!.
  - intros body name info H. rewrite class_record_locals in H. simpl in H.
    apply (class_locals_methods_from unparse body) in H
      as (fargs & b & d & r & Hin & _ & ->).
    exists fargs, b, d, r. split; [done|]. apply method_param_list_spec.
  - intros read_text ast_parse filepath tree name info Hload.
    unfold parse_module_functions. rewrite Hload. simpl.
    intros (fargs & b & d & r & Hin & ->)%module_functions_from.
    exists fargs, b, d, r. split; [done|]. apply function_param_list_spec.
  - intros a po va ko kw. done.
Qed.

(** The lists for [def f(self, a, /, b: int, *rest, c, **extra)]: only
    [b: int] is listed. *)
Lemma every_kind_params :
  method_param_list sample_unparse every_kind = ["b: int"]
  ∧ function_param_list sample_unparse every_kind = ["b: int"].
Proof. split; vm_compute; reflexivity. Qed.

(** ** Files that fail to parse *)

(** A loop over a state of result and printed lines whose result does
    not depend on the lines printed so far. *)
Lemma foldl_result_independent {R X} (f : R * list string → X → R * list string)
    (l : list X) (st st' : R * list string) :
  (∀ a b x, a.1 = b.1 → (f a x).1 = (f b x).1) →
  st.1 = st'.1 → (foldl f st l).1 = (foldl f st' l).1.
Proof.
  intros Hf. revert st st'. induction l as [|x l IH]; intros st st' H; simpl.
  - done.
  - apply IH. by apply Hf.
Qed.

(** A loop whose iterations only add printed lines keeps those printed
    before. *)
Lemma foldl_printed_kept {R X} (f : R * list string → X → R * list string)
    (l : list X) (st : R * list string) (line : string) :
  (∀ a x, line ∈ a.2 → line ∈ (f a x).2) →
  line ∈ st.2 → line ∈ (foldl f st l).2.
Proof.
  intros Hf. revert st. induction l as [|x l IH]; intros st H; simpl; auto.
Qed.

Section ParseFailure.
Variable unparse : expr → option string.
Variable read_text : string → outcome string.
Variable ast_parse : string → string → outcome Module_.
Variable relpath : string → string → string.

Lemma parse_directory_file_result pk dirpath a b filename :
  a.1 = b.1 →
  (parse_directory_file unparse read_text ast_parse pk dirpath a filename).1
  = (parse_directory_file unparse read_text ast_parse pk dirpath b filename).1.
Proof.
  destruct a as [p s], b as [p' s']. simpl. intros ->.
  unfold parse_directory_file.
  destruct (endswith filename ".py"); [|done].
  destruct (parse_python_file _ _ _ _) as [file_classes printed].
  by destruct (dict_nonempty file_classes).
Qed.

Lemma parse_functions_file_result pk dirpath a b filename :
  a.1 = b.1 →
  (parse_functions_file unparse read_text ast_parse pk dirpath a filename).1
  = (parse_functions_file unparse read_text ast_parse pk dirpath b filename).1.
Proof.
  destruct a as [p s], b as [p' s']. simpl. intros ->.
  unfold parse_functions_file.
  destruct (endswith filename ".py"); [|done].
  destruct (parse_module_functions _ _ _ _) as [funcs printed].
  by destruct (dict_nonempty funcs).
Qed.

Lemma parse_directory_file_printed pk dirpath a filename line :
  line ∈ a.2 →
  line ∈ (parse_directory_file unparse read_text ast_parse
            pk dirpath a filename).2.
Proof.
  destruct a as [p s]. simpl. intros H.
  unfold parse_directory_file.
  destruct (endswith filename ".py"); [|done].
  destruct (parse_python_file _ _ _ _) as [file_classes printed].
  destruct (dict_nonempty file_classes); simpl; apply elem_of_app; by left.
Qed.

Lemma parse_functions_file_printed pk dirpath a filename line :
  line ∈ a.2 →
  line ∈ (parse_functions_file unparse read_text ast_parse
            pk dirpath a filename).2.
Proof.
  destruct a as [p s]. simpl. intros H.
  unfold parse_functions_file.
  destruct (endswith filename ".py"); [|done].
  destruct (parse_module_functions _ _ _ _) as [funcs printed].
  destruct (dict_nonempty funcs); simpl; apply elem_of_app; by left.
Qed.

Lemma parse_directory_dir_result root_dir a b d :
  a.1 = b.1 →
  (parse_directory_dir unparse read_text ast_parse relpath root_dir a d).1
  = (parse_directory_dir unparse read_text ast_parse relpath root_dir b d).1.
Proof.
  destruct d as [[dirpath dirs] filenames]. simpl.
  apply foldl_result_independent. intros. by apply parse_directory_file_result.
Qed.

Lemma parse_functions_dir_result root_dir a b d :
  a.1 = b.1 →
  (parse_functions_dir unparse read_text ast_parse relpath root_dir a d).1
  = (parse_functions_dir unparse read_text ast_parse relpath root_dir b d).1.
Proof.
  destruct d as [[dirpath dirs] filenames]. simpl.
  apply foldl_result_independent. intros. by apply parse_functions_file_result.
Qed.

Lemma parse_directory_dir_printed root_dir a d line :
  line ∈ a.2 →
  line ∈ (parse_directory_dir unparse read_text ast_parse relpath
            root_dir a d).2.
Proof.
  destruct d as [[dirpath dirs] filenames]. simpl.
  apply foldl_printed_kept. intros. by apply parse_directory_file_printed.
Qed.

Lemma parse_functions_dir_printed root_dir a d line :
  line ∈ a.2 →
  line ∈ (parse_functions_dir unparse read_text ast_parse relpath
            root_dir a d).2.
Proof.
  destruct d as [[dirpath dirs] filenames]. simpl.
  apply foldl_printed_kept. intros. by apply parse_functions_file_printed.
Qed.

(** The iteration for a file that fails to load leaves the aggregate as
    it is and prints the error. *)
Lemma parse_directory_file_failed pk dirpath st filename e :
  load read_text ast_parse (path_join dirpath filename) = Raised e →
  parse_directory_file unparse read_text ast_parse pk dirpath st filename
  = if endswith filename ".py"
    then (st.1, st.2 ++ [parse_error (path_join dirpath filename) e])
    else st.
Proof.
  intros Hload. destruct st as [p s].
  unfold parse_directory_file, parse_python_file.
  rewrite Hload. by destruct (endswith filename ".py").
Qed.

Lemma parse_functions_file_failed pk dirpath st filename e :
  load read_text ast_parse (path_join dirpath filename) = Raised e →
  parse_functions_file unparse read_text ast_parse pk dirpath st filename
  = if endswith filename ".py"
    then (st.1, st.2 ++ [parse_error (path_join dirpath filename) e])
    else st.
Proof.
  intros Hload. destruct st as [p s].
  unfold parse_functions_file, parse_module_functions.
  rewrite Hload. by destruct (endswith filename ".py").
Qed.
End ParseFailure.

Section ParseFailureClaim.
Variable unparse : expr → option string.
Variable read_text : string → outcome string.
Variable ast_parse : string → string → outcome Module_.
Variable relpath : string → string → string.

(** The directory loops at a listing that names a file which fails to
    load: the aggregate is the one of the listing without the file, and
    the error line is among the printed lines. *)
Lemma walk_with_failed_file {E}
    (file_step : string → string → dict (list E) * list string → string →
                 dict (list E) * list string)
    (compute : string → string → string)
    (root_dir : string) w1 w2 dirpath (dirs : list string) f1 f2
    filename report :
  let dir_step := λ st (d : string * list string * list string),
    let '(dirpath, _, filenames) := d in
    foldl (file_step (compute root_dir dirpath) dirpath) st filenames in
  (∀ pk dp a b x,
     a.1 = b.1 → (file_step pk dp a x).1 = (file_step pk dp b x).1) →
  (∀ pk dp a x line, line ∈ a.2 → line ∈ (file_step pk dp a x).2) →
  (∀ pk st, file_step pk dirpath st filename = (st.1, st.2 ++ [report])) →
  (foldl dir_step ([], [])
     (w1 ++ (dirpath, dirs, f1 ++ filename :: f2) :: w2)).1
  = (foldl dir_step ([], []) (w1 ++ (dirpath, dirs, f1 ++ f2) :: w2)).1
  ∧ report
    ∈ (foldl dir_step ([], [])
         (w1 ++ (dirpath, dirs, f1 ++ filename :: f2) :: w2)).2.
Proof.
  intros dir_step Hres Hout Hfail.
  assert (∀ a b d, a.1 = b.1 → (dir_step a d).1 = (dir_step b d).1) as Hdres.
  { intros a b [[dp ds] fs] H. simpl.
    apply foldl_result_independent; [|done]. intros. by apply Hres. }
  assert (∀ a d line, line ∈ a.2 → line ∈ (dir_step a d).2) as Hdout.
  { intros a [[dp ds] fs] line H. simpl.
    apply foldl_printed_kept; [|done]. intros. by apply Hout. }
  rewrite !foldl_app. cbn [foldl].
  set (st0 := foldl dir_step ([], []) w1).
  split.
  - apply foldl_result_independent; [done|].
    subst dir_step. cbn beta iota. rewrite !foldl_app. cbn [foldl].
    apply foldl_result_independent; [intros; by apply Hres|].
    by rewrite Hfail.
  - apply foldl_printed_kept; [intros; by apply Hdout|].
    subst dir_step. cbn beta iota. rewrite !foldl_app. cbn [foldl].
    apply foldl_printed_kept; [intros; by apply Hout|].
    rewrite Hfail. simpl. apply elem_of_app. right.
    by apply list_elem_of_singleton.
Qed.

(** C7: for a file that fails to be read or parsed, both parsers
    return the empty dictionary and print the error with the path of the
    file; and both directory scans return the aggregate they return for
    the same listing without that file, with the error line among the
    printed lines. *)
Theorem failed_file_contributes_nothing
    (os_walk os_walk' : string → list (string * list string * list string))
    (root_dir : string) (w1 w2 : list (string * list string * list string))
    (dirpath : string) (dirs f1 f2 : list string) (filename e : string) :
  load read_text ast_parse (path_join dirpath filename) = Raised e →
  endswith filename ".py" = true →
  os_walk root_dir = w1 ++ (dirpath, dirs, f1 ++ filename :: f2) :: w2 →
  os_walk' root_dir = w1 ++ (dirpath, dirs, f1 ++ f2) :: w2 →
  let filepath := path_join dirpath filename in
  let report := "Error parsing " +:+ filepath +:+ ": " +:+ e in
  parse_python_file unparse read_text ast_parse filepath = ([], [report])
  ∧ parse_module_functions unparse read_text ast_parse filepath = ([], [report])
  ∧ (parse_directory unparse read_text ast_parse relpath os_walk root_dir).1
    = (parse_directory unparse read_text ast_parse relpath os_walk' root_dir).1
  ∧ report
    ∈ (parse_directory unparse read_text ast_parse relpath os_walk root_dir).2
  ∧ (parse_directory_module_functions unparse read_text ast_parse relpath
       os_walk root_dir).1
    = (parse_directory_module_functions unparse read_text ast_parse relpath
         os_walk' root_dir).1
  ∧ report
    ∈ (parse_directory_module_functions unparse read_text ast_parse relpath
         os_walk root_dir).2.
Proof.
  intros Hload Hpy Hwalk Hwalk' filepath report.
  assert (parse_python_file unparse read_text ast_parse filepath
          = ([], [report])) as H1.
  { unfold parse_python_file. subst filepath. by rewrite Hload. }
  assert (parse_module_functions unparse read_text ast_parse filepath
          = ([], [report])) as H2.
  { unfold parse_module_functions. subst filepath. by rewrite Hload. }
  split; [done|]. split; [done|].
  unfold parse_directory, parse_directory_module_functions.
  rewrite Hwalk, Hwalk'.
  pose proof (walk_with_failed_file
    (parse_directory_file unparse read_text ast_parse)
    (compute_package_name relpath)
    root_dir w1 w2 dirpath dirs f1 f2 filename report) as Hc.
  pose proof (walk_with_failed_file
    (parse_functions_file unparse read_text ast_parse)
    (compute_package_name relpath)
    root_dir w1 w2 dirpath dirs f1 f2 filename report) as Hf.
  cbv zeta in Hc, Hf.
  destruct Hc as [Hc1 Hc2].
  { intros. by apply parse_directory_file_result. }
  { intros. by apply parse_directory_file_printed. }
  { intros pk st. rewrite (parse_directory_file_failed _ _ _ _ _ _ _ e Hload).
    by rewrite Hpy. }
  destruct Hf as [Hf1 Hf2].
  { intros. by apply parse_functions_file_result. }
  { intros. by apply parse_functions_file_printed. }
  { intros pk st. rewrite (parse_functions_file_failed _ _ _ _ _ _ _ e Hload).
    by rewrite Hpy. }
  done.
Qed.
End ParseFailureClaim.

(** C7 at [bad.py] of the sample project. *)
Lemma failed_file_contributes_nothing_witness :
  load sample_read sample_parse (path_join "proj" "bad.py")
  = Raised "invalid syntax (<unknown>, line 1)"
  ∧ parse_python_file sample_unparse sample_read sample_parse "proj/bad.py"
    = ([], ["Error parsing proj/bad.py: invalid syntax (<unknown>, line 1)"])
  ∧ parse_module_functions sample_unparse sample_read sample_parse "proj/bad.py"
    = ([], ["Error parsing proj/bad.py: invalid syntax (<unknown>, line 1)"])
  ∧ (parse_directory sample_unparse sample_read sample_parse sample_relpath
       sample_walk "proj").1
    = (parse_directory sample_unparse sample_read sample_parse sample_relpath
         sample_walk_clean "proj").1
  ∧ "Error parsing proj/bad.py: invalid syntax (<unknown>, line 1)"
    ∈ (parse_directory sample_unparse sample_read sample_parse sample_relpath
         sample_walk "proj").2
  ∧ (parse_directory_module_functions sample_unparse sample_read sample_parse
       sample_relpath sample_walk "proj").1
    = (parse_directory_module_functions sample_unparse sample_read sample_parse
         sample_relpath sample_walk_clean "proj").1
  ∧ "Error parsing proj/bad.py: invalid syntax (<unknown>, line 1)"
    ∈ (parse_directory_module_functions sample_unparse sample_read sample_parse
         sample_relpath sample_walk "proj").2.
Proof.
  split; [reflexivity|].
  exact (failed_file_contributes_nothing
           sample_unparse sample_read sample_parse sample_relpath
           sample_walk sample_walk_clean "proj"
           [] [("proj/a", ["b"], []); ("proj/a/b", [], ["m.py"]);
               ("proj/a.b", [], ["m.py"])]
           "proj" ["a"; "a.b"] [] ["notes.txt"] "bad.py"
           "invalid syntax (<unknown>, line 1)"
           eq_refl eq_refl eq_refl eq_refl).
Defined.

(** ** Display names *)

Lemma counter_get_step c k k' :
  counter_get (dict_set k (S (counter_get c k)) c) k'
  = counter_get c k' + (if decide (k = k') then 1 else 0).
Proof.
  unfold counter_get. destruct (decide (k = k')) as [->|Hne].
  - rewrite dict_get_set_eq. simpl. lia.
  - rewrite dict_get_set_ne by done. lia.
Qed.

(** [Counter] counts occurrences. *)
Lemma counter_get_Counter l k : counter_get (Counter l) k = occurrences k l.
Proof.
  unfold Counter, occurrences.
  enough (∀ c, counter_get
                 (foldl (λ c k, dict_set k (S (counter_get c k)) c) c l) k
               = counter_get c k + length (filter (λ x, x = k) l)) as H.
  { rewrite H. done. }
  induction l as [|x l IH]; intros c; simpl.
  - lia.
  - rewrite IH, counter_get_step, filter_cons.
    destruct (decide (x = k)); simpl; lia.
Qed.

Lemma occurrences_app k l1 l2 :
  occurrences k (l1 ++ l2) = occurrences k l1 + occurrences k l2.
Proof. unfold occurrences. by rewrite filter_app, length_app. Qed.

Lemma occurrences_pos k l : 0 < occurrences k l ↔ k ∈ l.
Proof.
  unfold occurrences. induction l as [|x l IH]; simpl.
  - split; [lia | intros H; by apply elem_of_nil in H].
  - rewrite filter_cons, elem_of_cons.
    destruct (decide (x = k)) as [->|Hne]; simpl.
    + split; [auto | lia].
    + rewrite IH. naive_solver.
Qed.

(** A name is counted more than once exactly when another entry has it. *)
Lemma counted_twice (before after : list ClassEntry) (e : ClassEntry) :
  1 < occurrences (class_name e) (class_name <$> before ++ e :: after)
  ↔ ∃ e', e' ∈ before ++ after ∧ class_name e' = class_name e.
Proof.
  rewrite fmap_app, fmap_cons, occurrences_app.
  change (class_name e :: (class_name <$> after))
    with ([class_name e] ++ (class_name <$> after)).
  rewrite occurrences_app.
  assert (occurrences (class_name e) [class_name e] = 1) as ->.
  { unfold occurrences. simpl. rewrite filter_cons, decide_True by done. done. }
  pose proof (occurrences_pos (class_name e) (class_name <$> before)) as Hb.
  pose proof (occurrences_pos (class_name e) (class_name <$> after)) as Ha.
  rewrite list_elem_of_fmap in Hb, Ha.
  split.
  - intros H.
    destruct (decide (0 < occurrences (class_name e) (class_name <$> before)))
      as [Hpos|Hz].
    + apply Hb in Hpos as (e' & Heq & Hin). exists e'.
      split; [apply elem_of_app; by left | done].
    + assert (0 < occurrences (class_name e) (class_name <$> after)) as Hpos
        by lia.
      apply Ha in Hpos as (e' & Heq & Hin). exists e'.
      split; [apply elem_of_app; by right | done].
  - intros (e' & [Hin|Hin]%elem_of_app & Heq).
    + assert (0 < occurrences (class_name e) (class_name <$> before)); [|lia].
      apply Hb. by exists e'.
    + assert (0 < occurrences (class_name e) (class_name <$> after)); [|lia].
      apply Ha. by exists e'.
Qed.

Lemma string_app_cons (c : ascii) (s t : string) :
  String c s +:+ t = String c (s +:+ t).
Proof. reflexivity. Qed.

Lemma string_app_assoc (s1 s2 s3 : string) :
  (s1 +:+ s2) +:+ s3 = s1 +:+ (s2 +:+ s3).
Proof.
  induction s1 as [|c s1 IH]; [done|]. by rewrite !string_app_cons, IH.
Qed.

Lemma string_app_nil_r (s : string) : s +:+ "" = s.
Proof. induction s as [|c s IH]; [done|]. by rewrite string_app_cons, IH. Qed.

Lemma string_app_length (s t : string) :
  String.length (s +:+ t) = String.length s + String.length t.
Proof.
  induction s as [|c s IH]; [done|]. rewrite string_app_cons. simpl.
  by rewrite IH.
Qed.

Lemma string_app_inj_r (s1 s2 t : string) : s1 +:+ t = s2 +:+ t → s1 = s2.
Proof.
  revert s2. induction s1 as [|c s1 IH]; intros [|c' s2] H.
  - done.
  - apply (f_equal String.length) in H.
    rewrite !string_app_length in H. simpl in H. lia.
  - apply (f_equal String.length) in H.
    rewrite !string_app_length in H. simpl in H. lia.
  - rewrite !string_app_cons in H. injection H as -> H. f_equal. by apply IH.
Qed.

(** C4, as stated, fails: the sample project has the directories [a/b]
    and [a.b], both of package [a.b], each with a module [m] that defines a
    class [Node].  The two entries share the class name and are displayed
    under the same name, [Node (m)]. *)
Lemma same_module_names_are_displayed_alike :
  let first := ClassEntry_ "Node" (ClassData_ ["left"] [] [] []) "m" in
  let second := ClassEntry_ "Node" (ClassData_ [] ["_up"] [] []) "m" in
  let packages :=
    (parse_directory sample_unparse sample_read sample_parse sample_relpath
       sample_walk "proj").1 in
  packages = [("a.b", [first; second])]
  ∧ first ≠ second
  ∧ display_name (Counter ["Node"; "Node"]) first = "Node (m)"
  ∧ display_name (Counter ["Node"; "Node"]) second = "Node (m)"
  ∧ uml_lines packages
    = uml_header
      ++ ["package a.b {";
          "  class Node (m) {"; "    + left"; "  }";
          "  class Node (m) {"; "    - _up"; "  }";
          "}"; "@enduml"].
Proof. cbv zeta. split_and!; try (vm_compute; reflexivity). discriminate. Qed.

(** C4, amended: an entry whose class name is shared by another entry
    of its package is displayed as the class name followed by its module
    name in parentheses; an entry whose class name no other entry of the
    package has is displayed under the bare class name; and two entries
    that share a class name are displayed under distinct names exactly when
    their module names differ. *)
Theorem display_names_append_the_module
    (pkg : string) (before after : list ClassEntry) (e : ClassEntry) :
  let class_entries := before ++ e :: after in
  let class_name_counts := Counter (class_name <$> class_entries) in
  let shown := display_name class_name_counts e in
  package_lines (pkg, class_entries)
  = ["package " +:+ pkg +:+ " {"]
    ++ (before ≫= class_lines class_name_counts)
    ++ class_lines class_name_counts e
    ++ (after ≫= class_lines class_name_counts)
    ++ ["}"]
  ∧ head (class_lines class_name_counts e)
    = Some ("  class " +:+ shown +:+ " {")
  ∧ ((∃ e', e' ∈ before ++ after ∧ class_name e' = class_name e) →
     shown = class_name e +:+ " (" +:+ module e +:+ ")")
  ∧ ((∀ e', e' ∈ before ++ after → class_name e' ≠ class_name e) →
     shown = class_name e)
  ∧ (∀ e', e' ∈ before ++ after → class_name e' = class_name e →
           (display_name class_name_counts e' = shown ↔ module e' = module e)).
Proof.
  intros class_entries class_name_counts shown.
  assert (∀ x, display_name class_name_counts x
               = if decide (1 < occurrences (class_name x)
                                  (class_name <$> class_entries))
                 then class_name x +:+ " (" +:+ module x +:+ ")"
                 else class_name x) as Hshow.
  { intros x. unfold display_name, class_name_counts.
    by rewrite counter_get_Counter. }
  assert ((∃ e', e' ∈ before ++ after ∧ class_name e' = class_name e) →
          shown = class_name e +:+ " (" +:+ module e +:+ ")") as Hdup.
  { intros Hex%counted_twice. unfold shown. rewrite Hshow.
    by rewrite decide_True. }
  split_and!.
  - unfold package_lines, class_entries. fold class_name_counts.
    by rewrite bind_app, bind_cons, <- !app_assoc.
  - done.
  - done.
  - intros Hnone. unfold shown. rewrite Hshow. rewrite decide_False; [done|].
    intros (e' & Hin & Heq)%counted_twice. by apply (Hnone e').
  - intros e' Hin Heq. rewrite Hdup by (by exists e').
    rewrite Hshow, Heq. rewrite decide_True.
    + split.
      * intros H. apply (inj (String.app (class_name e))) in H.
        apply (inj (String.app " (")) in H. by apply string_app_inj_r in H.
      * by intros ->.
    + apply counted_twice. by exists e'.
Qed.

(** ** The function listing *)

Lemma sorted_insert_Forall2 {A B} (R : A → B → Prop)
    (key : A → string) (key' : B → string) x y l l' :
  (∀ a b, R a b → key a = key' b) →
  R x y → Forall2 R l l' →
  Forall2 R (sorted_insert key x l) (sorted_insert key' y l').
Proof.
  intros Hkey Hxy HF. induction HF as [|a b l l' Hab HF IH]; simpl.
  - by repeat constructor.
  - rewrite <- (Hkey x y Hxy), <- (Hkey a b Hab).
    destruct (String.leb (key x) (key a)); by repeat constructor.
Qed.

Lemma sorted_by_Forall2 {A B} (R : A → B → Prop)
    (key : A → string) (key' : B → string) l l' :
  (∀ a b, R a b → key a = key' b) →
  Forall2 R l l' → Forall2 R (sorted_by key l) (sorted_by key' l').
Proof.
  intros Hkey HF. induction HF as [|a b l l' Hab HF IH]; simpl.
  - constructor.
  - by apply sorted_insert_Forall2.
Qed.

Lemma Forall2_elem {A B} (R : A → B → Prop) l l' :
  Forall2 R l l' → Forall2 (λ x y, x ∈ l ∧ R x y) l l'.
Proof.
  induction 1 as [|a b l l' Hab HF IH]; constructor.
  - split; [apply elem_of_cons; by left | done].
  - eapply Forall2_impl; [apply IH|]. intros x y [Hx Hxy].
    split; [apply elem_of_cons; by right | done].
Qed.

Lemma bind_Forall2 {A B C} (R : A → B → Prop)
    (f : A → list C) (g : B → list C) l l' :
  (∀ x y, R x y → f x = g y) → Forall2 R l l' → l ≫= f = l' ≫= g.
Proof.
  intros Hfg. induction 1 as [|a b l l' Hab HF IH]; [done|].
  by rewrite !bind_cons, (Hfg a b Hab), IH.
Qed.

Lemma module_lines_reordered e e' :
  dict_wf (functions e) → reordered_functions e e' →
  module_lines e = module_lines e'.
Proof.
  intros Hwf [Hm Hf]. unfold module_lines, sorted_items.
  by rewrite Hm, (sorted_by_perm fst _ _ Hwf Hf).
Qed.

Lemma package_doc_lines_reordered p p' :
  NoDup (entry_module <$> p.2) →
  (∀ e, e ∈ p.2 → dict_wf (functions e)) →
  reordered_package p p' → package_doc_lines p = package_doc_lines p'.
Proof.
  destruct p as [pkg es], p' as [pkg' es']. simpl.
  intros Hnd Hwf [Hpkg (es'' & Hperm & HF)]. simpl in *. subst pkg'.
  unfold package_doc_lines. do 2 f_equal.
  rewrite (sorted_by_perm entry_module _ _ Hnd Hperm).
  eapply (bind_Forall2 (λ x y, x ∈ sorted_by entry_module es''
                               ∧ reordered_functions x y)).
  - intros x y [Hx Hxy]. apply module_lines_reordered; [|done].
    apply Hwf. rewrite Hperm. by apply elem_of_sorted_by in Hx.
  - apply Forall2_elem. apply sorted_by_Forall2; [|done]. by intros a b [? _].
Qed.

Lemma doc_lines_rediscovered modules modules' :
  distinct_names modules → rediscovered modules modules' →
  doc_lines modules' = doc_lines modules.
Proof.
  intros [Hwf Hpk] (m'' & Hperm & HF). unfold doc_lines, sorted_items.
  f_equal. rewrite (sorted_by_perm fst _ _ Hwf Hperm). symmetry.
  eapply (bind_Forall2 (λ x y, x ∈ sorted_by fst m'' ∧ reordered_package x y)).
  - intros [pkg es] p' [Hx Hxy].
    apply elem_of_sorted_by in Hx. rewrite <- Hperm in Hx.
    destruct (Hpk pkg es Hx) as [Hnd Hfs].
    by apply package_doc_lines_reordered.
  - apply Forall2_elem. apply sorted_by_Forall2; [|done]. by intros a b [? _].
Qed.

Lemma function_line_form name info :
  function_line (name, info)
  = "    - " +:+ name +:+ "(" +:+ join ", " (fn_params info) +:+ ")"
    +:+ (if nonempty (fn_return info) then " -> " +:+ fn_return info else "")
    +:+ match fn_decorators info with
        | [] => ""
        | _ :: _ => " [Decorators: " +:+ join ", " (fn_decorators info) +:+ "]"
        end.
Proof.
  unfold function_line, signature.
  destruct (nonempty (fn_return info)), (fn_decorators info);
    by rewrite ?string_app_assoc, ?string_app_nil_r.
Qed.

(** C8: the listing goes through the packages in the order of their
    names, through the module entries of a package in the order of their
    module names, and through the functions of a module in the order of
    their names, whatever the order of the aggregate.  Each function line
    is the name, the parameters in parentheses, an arrow and the return
    type when there is one, and the decorators in brackets when there are
    any, after the list marker of the report.  Two aggregates that differ
    in discovery order only, with pairwise distinct package, module and
    function names, give the same listing. *)
Theorem listing_is_sorted_by_package_module_function
    (modules : dict (list ModuleEntry)) :
  let packages := sorted_items modules in
  generate_module_functions_doc modules
  = join LF (doc_header ++ (packages ≫= package_doc_lines))
  ∧ packages ≡ₚ items modules
  ∧ StronglySorted (key_le fst) packages
  ∧ (∀ pkg module_entries,
       let entries := sorted_by entry_module module_entries in
       package_doc_lines (pkg, module_entries)
       = ["Package: " +:+ pkg] ++ (entries ≫= module_lines) ++ [""]
       ∧ entries ≡ₚ module_entries
       ∧ StronglySorted (key_le entry_module) entries)
  ∧ (∀ entry,
       let fs := sorted_items (functions entry) in
       module_lines entry
       = ["  Module: " +:+ entry_module entry] ++ (function_line <$> fs) ++ [""]
       ∧ fs ≡ₚ items (functions entry)
       ∧ StronglySorted (key_le fst) fs)
  ∧ (∀ name info,
       function_line (name, info)
       = "    - " +:+ name +:+ "(" +:+ join ", " (fn_params info) +:+ ")"
         +:+ (if nonempty (fn_return info)
              then " -> " +:+ fn_return info else "")
         +:+ match fn_decorators info with
             | [] => ""
             | _ :: _ =>
                 " [Decorators: " +:+ join ", " (fn_decorators info) +:+ "]"
             end)
  ∧ (∀ modules',
       distinct_names modules → rediscovered modules modules' →
       generate_module_functions_doc modules'
       = generate_module_functions_doc modules).
Proof.
  intros packages. subst packages. split_and!.
  - done.
  - apply sorted_by_Permutation.
  - apply sorted_by_StronglySorted.
  - intros pkg module_entries entries. subst entries. split_and!.
    + done.
    + apply sorted_by_Permutation.
    + apply sorted_by_StronglySorted.
  - intros entry fs. subst fs. split_and!.
    + done.
    + apply sorted_by_Permutation.
    + apply sorted_by_StronglySorted.
  - apply function_line_form.
  - intros modules' Hd Hr. unfold generate_module_functions_doc.
    by rewrite (doc_lines_rediscovered modules modules').
Qed.

(** The listing of the same functions discovered in two orders. *)
Lemma listing_of_two_discovery_orders :
  doc_lines listing_one
  = ["Module-Level Functions Documentation"; rule; "";
     "Package: root";
     "  Module: main"; "    - main() -> None"; ""; "";
     "Package: web";
     "  Module: forms"; "    - clean()"; "";
     "  Module: views";
     "    - fetch(url: str) -> bytes [Decorators: cached]";
     "    - show(request)"; ""; ""]
  ∧ doc_lines listing_two = doc_lines listing_one.
Proof. split; vm_compute; reflexivity. Qed.

(** * Further properties *)

(** ** Attributes of a class record *)

Lemma class_level_targets_only x targets st :
  x ∈ all_attributes
        (foldl (λ st' target, class_level_target target st') st targets) →
  x ∈ all_attributes st ∨ Name x ∈ targets.
Proof.
  revert st. induction targets as [|t targets IH]; intros st; simpl; [auto|].
  intros [Hx|Hx]%IH.
  - destruct t; simpl in Hx; auto.
    apply add_attribute_all in Hx as [->|Hx]; [|auto].
    right. apply elem_of_cons. by left.
  - right. apply elem_of_cons. by right.
Qed.

Lemma class_level_stmt_only x st stmt :
  x ∈ all_attributes (class_level_stmt st stmt) →
  x ∈ all_attributes st ∨ assigns stmt x.
Proof.
  destruct stmt; simpl; auto.
  - apply class_level_targets_only.
  - destruct target; simpl; auto.
    intros [->|Hx]%add_attribute_all; auto.
Qed.

Lemma class_level_loop_only x body st :
  x ∈ all_attributes (foldl class_level_stmt st body) →
  x ∈ all_attributes st ∨ ∃ stmt, stmt ∈ body ∧ assigns stmt x.
Proof.
  revert st. induction body as [|s body IH]; intros st; simpl; [auto|].
  intros [Hx|(stmt & Hin & Hs)]%IH.
  - apply class_level_stmt_only in Hx as [Hx|Hx]; [auto|].
    right. exists s. split; [apply elem_of_cons; by left | done].
  - right. exists stmt. split; [apply elem_of_cons; by right | done].
Qed.

(** The method loop never reaches the scan of the initializer, so it
    leaves both attribute sets as they are. *)
Lemma method_stmt_attributes unparse st stmt :
  attributes (method_stmt unparse st stmt) = attributes st
  ∧ private_attributes (method_stmt unparse st stmt) = private_attributes st.
Proof.
  destruct stmt; simpl; try done.
  destruct (startswith name "__" && endswith name "__") eqn:Hd; [done|].
  case_decide as Hinit.
  - subst name. vm_compute in Hd. discriminate.
  - apply add_method_attributes.
Qed.

Lemma method_loop_attributes unparse body st :
  attributes (foldl (method_stmt unparse) st body) = attributes st
  ∧ private_attributes (foldl (method_stmt unparse) st body)
    = private_attributes st.
Proof.
  revert st. induction body as [|s body IH]; intros st; simpl; [done|].
  destruct (IH (method_stmt unparse st s)) as [-> ->].
  apply method_stmt_attributes.
Qed.

Lemma class_locals_only unparse body x :
  x ∈ all_attributes (class_locals unparse body) →
  ∃ stmt, stmt ∈ body ∧ assigns stmt x.
Proof.
  unfold class_locals, all_attributes.
  destruct (method_loop_attributes unparse body
              (foldl class_level_stmt (Locals ∅ ∅ [] []) body)) as [-> ->].
  intros [Hx|Hx]%class_level_loop_only; [|done].
  unfold all_attributes in Hx. simpl in Hx. set_solver.
Qed.

(** X1: the attribute lists of a class record hold exactly the names
    that a statement directly in the class body assigns to as a bare name
    (assignment or annotated assignment): the public list those that do
    not start with an underscore, the private list those that do.  No
    attribute assigned in a method, the initializer included, or under a
    nested statement is listed. *)
Theorem attribute_lists_are_the_class_body_names
    (unparse : expr → option string) (body : list node) (x : string) :
  let record := class_record unparse body in
  (x ∈ data_attributes record
   ↔ (∃ stmt, stmt ∈ body ∧ assigns stmt x) ∧ is_private x = false)
  ∧ (x ∈ data_private_attributes record
     ↔ (∃ stmt, stmt ∈ body ∧ assigns stmt x) ∧ is_private x = true).
Proof.
  intros record. subst record.
  rewrite elem_of_data_attributes, elem_of_data_private_attributes.
  destruct (class_locals_partitioned unparse body) as [Hpub Hpriv].
  split; split.
  - intros Hx. split; [|auto].
    apply (class_locals_only unparse). unfold all_attributes. set_solver.
  - intros [(stmt & Hin & Hs) Hp].
    pose proof (class_locals_assigned unparse body stmt x Hin Hs) as Hall.
    unfold all_attributes in Hall. apply elem_of_union in Hall as [|H]; [done|].
    apply Hpriv in H. congruence.
  - intros Hx. split; [|auto].
    apply (class_locals_only unparse). unfold all_attributes. set_solver.
  - intros [(stmt & Hin & Hs) Hp].
    pose proof (class_locals_assigned unparse body stmt x Hin Hs) as Hall.
    unfold all_attributes in Hall. apply elem_of_union in Hall as [H|]; [|done].
    apply Hpub in H. congruence.
Qed.

(** X2: both attribute lists of a class record are in ascending order
    and without repetition, however often a name is assigned. *)
Theorem attribute_lists_are_sorted_and_distinct
    (unparse : expr → option string) (body : list node) :
  let record := class_record unparse body in
  StronglySorted String.le (data_attributes record)
  ∧ NoDup (data_attributes record)
  ∧ StronglySorted String.le (data_private_attributes record)
  ∧ NoDup (data_private_attributes record).
Proof.
  intros record. subst record. rewrite class_record_locals. simpl.
  split_and!.
  - apply (sorted_by_StronglySorted id).
  - unfold sorted. rewrite sorted_by_Permutation. apply NoDup_elements.
  - apply (sorted_by_StronglySorted id).
  - unfold sorted. rewrite sorted_by_Permutation. apply NoDup_elements.
Qed.

(** ** Methods of a class record *)

(** Both method maps respect the visibility rule. *)
Lemma add_method_keys name info st k :
  (k ∈ keys (methods (add_method name info st))
   ↔ (k = name ∧ is_private name = false) ∨ k ∈ keys (methods st))
  ∧ (k ∈ keys (private_methods (add_method name info st))
     ↔ (k = name ∧ is_private name = true) ∨ k ∈ keys (private_methods st)).
Proof.
  unfold add_method, is_private.
  destruct (startswith name "_"); simpl; rewrite elem_keys_dict_set;
    naive_solver.
Qed.

Lemma method_stmt_keys unparse st stmt k :
  (k ∈ keys (methods (method_stmt unparse st stmt))
   ↔ (defines stmt k ∧ dunder k = false ∧ is_private k = false)
     ∨ k ∈ keys (methods st))
  ∧ (k ∈ keys (private_methods (method_stmt unparse st stmt))
     ↔ (defines stmt k ∧ dunder k = false ∧ is_private k = true)
       ∨ k ∈ keys (private_methods st)).
Proof.
  destruct stmt; simpl; try naive_solver.
  unfold dunder.
  destruct (startswith name "__" && endswith name "__") eqn:Hd.
  { split; split; try (intros H; by right);
      (intros [(<- & Hd' & _)|H]; [congruence | done]). }
  set (info := MethodInfo_ _ _).
  assert (∀ st',
    keeps_methods (add_method name info st) st' →
    (k ∈ keys (methods st')
     ↔ (name = k ∧ (startswith k "__" && endswith k "__") = false
        ∧ is_private k = false) ∨ k ∈ keys (methods st))
    ∧ (k ∈ keys (private_methods st')
       ↔ (name = k ∧ (startswith k "__" && endswith k "__") = false
          ∧ is_private k = true) ∨ k ∈ keys (private_methods st))) as H.
  { intros st' [-> ->].
    destruct (add_method_keys name info st k) as [-> ->].
    naive_solver. }
  case_decide.
  - apply H, scan_init_keeps.
  - by apply H.
Qed.

Lemma method_loop_keys unparse body st k :
  (k ∈ keys (methods (foldl (method_stmt unparse) st body))
   ↔ ((∃ stmt, stmt ∈ body ∧ defines stmt k)
      ∧ dunder k = false ∧ is_private k = false)
     ∨ k ∈ keys (methods st))
  ∧ (k ∈ keys (private_methods (foldl (method_stmt unparse) st body))
     ↔ ((∃ stmt, stmt ∈ body ∧ defines stmt k)
        ∧ dunder k = false ∧ is_private k = true)
       ∨ k ∈ keys (private_methods st)).
Proof.
  revert st. induction body as [|s body IH]; intros st; simpl.
  { split; (split; [auto|]); intros [((? & []%elem_of_nil & _) & _)|]; done. }
  destruct (IH (method_stmt unparse st s)) as [-> ->].
  destruct (method_stmt_keys unparse st s k) as [-> ->].
  split; split.
  - intros [((stmt & Hin & Hs) & Hd)|[(Hs & Hd)|H]]; auto; left.
    + split; [|done]. exists stmt. split; [apply elem_of_cons; by right|done].
    + split; [|done]. exists s. split; [apply elem_of_cons; by left|done].
  - intros [((stmt & [->|Hin]%elem_of_cons & Hs) & Hd)|H]; auto.
    left. split; [|done]. by exists stmt.
  - intros [((stmt & Hin & Hs) & Hd)|[(Hs & Hd)|H]]; auto; left.
    + split; [|done]. exists stmt. split; [apply elem_of_cons; by right|done].
    + split; [|done]. exists s. split; [apply elem_of_cons; by left|done].
  - intros [((stmt & [->|Hin]%elem_of_cons & Hs) & Hd)|H]; auto.
    left. split; [|done]. by exists stmt.
Qed.

Lemma method_stmt_wf unparse st stmt :
  dict_wf (methods st) ∧ dict_wf (private_methods st) →
  dict_wf (methods (method_stmt unparse st stmt))
  ∧ dict_wf (private_methods (method_stmt unparse st stmt)).
Proof.
  intros [H1 H2]. destruct stmt; simpl; try done.
  destruct (startswith name "__" && endswith name "__"); [done|].
  set (info := MethodInfo_ _ _).
  assert (dict_wf (methods (add_method name info st))
          ∧ dict_wf (private_methods (add_method name info st))) as Hadd.
  { unfold add_method. destruct (startswith name "_"); simpl;
      split; auto using dict_wf_set. }
  case_decide; [|done].
  by destruct (scan_init_keeps
    (FunctionDef name fargs body decorator_list returns)
    (add_method name info st)) as [-> ->].
Qed.

Lemma class_locals_initial_methods body :
  methods (foldl class_level_stmt (Locals ∅ ∅ [] []) body) = []
  ∧ private_methods (foldl class_level_stmt (Locals ∅ ∅ [] []) body) = [].
Proof.
  apply (keeps_methods_foldl class_level_stmt body (Locals ∅ ∅ [] [])).
  apply class_level_stmt_keeps.
Qed.

(** X3: the keys of the public method map of a class record are exactly
    the names of the [def] statements directly in the class body that
    neither start with an underscore nor start and end with two
    underscores; the keys of the private map are those that start with an
    underscore without being dunder names.  No name is a key of both
    maps, and neither map repeats a key. *)
Theorem method_maps_are_partitioned
    (unparse : expr → option string) (body : list node) (name : string) :
  let record := class_record unparse body in
  (name ∈ keys (data_methods record)
   ↔ (∃ stmt, stmt ∈ body ∧ defines stmt name)
     ∧ dunder name = false ∧ is_private name = false)
  ∧ (name ∈ keys (data_private_methods record)
     ↔ (∃ stmt, stmt ∈ body ∧ defines stmt name)
       ∧ dunder name = false ∧ is_private name = true)
  ∧ ¬ (name ∈ keys (data_methods record)
       ∧ name ∈ keys (data_private_methods record))
  ∧ dict_wf (data_methods record)
  ∧ dict_wf (data_private_methods record).
Proof.
  intros record. subst record. rewrite class_record_locals. simpl.
  unfold class_locals.
  destruct (class_locals_initial_methods body) as [Hm Hp].
  destruct (method_loop_keys unparse body
              (foldl class_level_stmt (Locals ∅ ∅ [] []) body) name)
    as [H1 H2].
  rewrite Hm in H1. rewrite Hp in H2.
  assert (∀ P : Prop, P ∨ name ∈ keys (@nil (string * MethodInfo)) ↔ P) as Hnil.
  { intros P. split; [intros [|[]%elem_of_nil]; done | auto]. }
  rewrite Hnil in H1, H2.
  split_and!; [done | done | | |].
  - rewrite H1, H2. intros [(_ & _ & Ha) (_ & _ & Hb)]. congruence.
  - apply (foldl_preserves
      (λ st, dict_wf (methods st) ∧ dict_wf (private_methods st))).
    + intros. by apply method_stmt_wf.
    + rewrite Hm, Hp. split; apply dict_wf_nil.
  - apply (foldl_preserves
      (λ st, dict_wf (methods st) ∧ dict_wf (private_methods st))).
    + intros. by apply method_stmt_wf.
    + rewrite Hm, Hp. split; apply dict_wf_nil.
Qed.

Lemma method_stmt_other unparse st stmt name :
  ¬ defines stmt name →
  dict_get name (methods (method_stmt unparse st stmt))
  = dict_get name (methods st)
  ∧ dict_get name (private_methods (method_stmt unparse st stmt))
    = dict_get name (private_methods st).
Proof.
  intros Hn. destruct stmt; simpl; try done. simpl in Hn.
  destruct (startswith name0 "__" && endswith name0 "__"); [done|].
  set (info := MethodInfo_ _ _).
  assert (dict_get name (methods (add_method name0 info st))
          = dict_get name (methods st)
          ∧ dict_get name (private_methods (add_method name0 info st))
            = dict_get name (private_methods st)) as Hadd.
  { unfold add_method. destruct (startswith name0 "_"); simpl;
      by rewrite dict_get_set_ne. }
  case_decide; [|done].
  by destruct (scan_init_keeps
    (FunctionDef name0 fargs body decorator_list returns)
    (add_method name0 info st)) as [-> ->].
Qed.

Lemma method_loop_other unparse st l name :
  (∀ stmt, stmt ∈ l → ¬ defines stmt name) →
  dict_get name (methods (foldl (method_stmt unparse) st l))
  = dict_get name (methods st)
  ∧ dict_get name (private_methods (foldl (method_stmt unparse) st l))
    = dict_get name (private_methods st).
Proof.
  revert st. induction l as [|s l IH]; intros st Hn; simpl; [done|].
  destruct (IH (method_stmt unparse st s)) as [-> ->].
  { intros stmt Hin. apply Hn. apply elem_of_cons. by right. }
  apply method_stmt_other. apply Hn. apply elem_of_cons. by left.
Qed.

(** X4: the entry of a method name in a class record is taken from the
    last [def] of that name directly in the class body: its parameters
    are the plain parameters other than [self], each with its annotation
    text when it has one, and its return type is the text of the return
    annotation.  The entry is in the private map when the name starts with
    an underscore and in the public map otherwise. *)
Theorem last_method_definition_is_recorded
    (unparse : expr → option string) (before after : list node)
    (name : string) (fargs : arguments) (body : list node)
    (decorator_list : list expr) (returns : option expr) :
  dunder name = false →
  (∀ stmt, stmt ∈ after → ¬ defines stmt name) →
  let record :=
    class_record unparse
      (before ++ FunctionDef name fargs body decorator_list returns :: after) in
  dict_get name
    (if is_private name then data_private_methods record
     else data_methods record)
  = Some (MethodInfo_
            (render_param unparse
             <$> filter (λ x, arg_name x ≠ "self") (args fargs))
            (unparse_text unparse returns)).
Proof.
  intros Hd Hafter record. subst record.
  rewrite class_record_locals. cbn [data_methods data_private_methods].
  unfold class_locals. rewrite (foldl_app (method_stmt unparse)). cbn [foldl].
  set (st := foldl (method_stmt unparse) _ before).
  destruct (method_loop_other unparse
    (method_stmt unparse st
       (FunctionDef name fargs body decorator_list returns)) after name Hafter)
    as [Hm Hp].
  assert (method_stmt unparse st
            (FunctionDef name fargs body decorator_list returns)
          = add_method name
              (MethodInfo_ (method_param_list unparse fargs)
                           (unparse_text unparse returns)) st ∨
          keeps_methods
            (add_method name
              (MethodInfo_ (method_param_list unparse fargs)
                           (unparse_text unparse returns)) st)
            (method_stmt unparse st
               (FunctionDef name fargs body decorator_list returns))) as Hstep.
  { simpl. unfold dunder in Hd. rewrite Hd. case_decide; [|by left].
    right. apply scan_init_keeps. }
  assert (keeps_methods
            (add_method name
              (MethodInfo_ (method_param_list unparse fargs)
                           (unparse_text unparse returns)) st)
            (method_stmt unparse st
               (FunctionDef name fargs body decorator_list returns)))
    as [Hkm Hkp].
  { destruct Hstep as [->|]; [by split | done]. }
  rewrite <- method_param_list_spec.
  unfold is_private. destruct (startswith name "_") eqn:Hpriv.
  - rewrite Hp, Hkp. unfold add_method. rewrite Hpriv. simpl.
    apply dict_get_set_eq.
  - rewrite Hm, Hkm. unfold add_method. rewrite Hpriv. simpl.
    apply dict_get_set_eq.
Qed.

(** X4 at a class body that defines [area] twice: the second
    definition is the one recorded. *)
Lemma last_method_definition_is_recorded_witness :
  dunder "area" = false
  ∧ dict_get "area" (data_methods (class_record sample_unparse shape_body))
    = Some (MethodInfo_ ["unit: str"] "float").
Proof.
  split; [reflexivity|].
  assert (∀ stmt,
            stmt ∈ [AsyncFunctionDef "load"
                      (Arguments [] [Arg "self" None] None [] None)
                      [Pass] [] None] →
            ¬ defines stmt "area") as Hafter.
  { intros stmt ->%list_elem_of_singleton. simpl. tauto. }
  exact (last_method_definition_is_recorded sample_unparse
           [FunctionDef "area" (Arguments [] [Arg "self" None] None [] None)
              [Pass] [] None;
            If (Name "debug")
              [FunctionDef "dump"
                 (Arguments [] [Arg "self" None] None [] None) [Pass] [] None]
              []]
           [AsyncFunctionDef "load"
              (Arguments [] [Arg "self" None] None [] None) [Pass] [] None]
           "area"
           (Arguments [] [Arg "self" None; Arg "unit" (Some (Name "str"))]
              None [] None)
           [Pass] [] (Some (Name "float"))
           eq_refl Hafter).
Defined.

(** ** Module-level functions of one file *)

Section FunctionFacts.
Variable unparse : expr → option string.

Lemma decorator_texts_spec (decorator_list : list expr) :
  decorator_texts unparse decorator_list
  = filter (λ s, s ≠ "") ((λ d, default "" (unparse d)) <$> decorator_list).
Proof.
  unfold decorator_texts.
  enough (∀ l acc,
    foldl (λ decorators decorator,
             let decorator_str := default "" (unparse decorator) in
             if nonempty decorator_str then decorators ++ [decorator_str]
             else decorators) acc l
    = acc ++ filter (λ s, s ≠ "") ((λ d, default "" (unparse d)) <$> l))
    as H by apply (H _ []).
  induction l as [|d l IH]; intros acc.
  - simpl. by rewrite app_nil_r.
  - cbn [foldl]. rewrite IH, fmap_cons, filter_cons.
    destruct (default "" (unparse d)) as [|c s]; cbn [nonempty];
      case_decide; try done.
    by rewrite <- app_assoc.
Qed.

Lemma module_function_stmt_keys fs stmt k :
  k ∈ keys (module_function_stmt unparse fs stmt)
  ↔ defines stmt k ∨ k ∈ keys fs.
Proof.
  destruct stmt; simpl; try naive_solver.
  rewrite elem_keys_dict_set. naive_solver.
Qed.

Lemma module_function_loop_keys fs body k :
  k ∈ keys (foldl (module_function_stmt unparse) fs body)
  ↔ (∃ stmt, stmt ∈ body ∧ defines stmt k) ∨ k ∈ keys fs.
Proof.
  revert fs. induction body as [|s body IH]; intros fs; simpl.
  { split; [auto|]. intros [(? & []%elem_of_nil & _)|]; done. }
  rewrite IH, module_function_stmt_keys. split.
  - intros [(stmt & Hin & Hs)|[Hs|H]]; auto; left.
    + exists stmt. split; [apply elem_of_cons; by right | done].
    + exists s. split; [apply elem_of_cons; by left | done].
  - intros [(stmt & [->|Hin]%elem_of_cons & Hs)|H]; auto.
    left. by exists stmt.
Qed.

Lemma module_function_loop_wf fs body :
  dict_wf fs → dict_wf (foldl (module_function_stmt unparse) fs body).
Proof.
  apply foldl_preserves. intros fs' stmt Hwf.
  destruct stmt; simpl; try done. by apply dict_wf_set.
Qed.

Lemma module_function_loop_other fs l name :
  (∀ stmt, stmt ∈ l → ¬ defines stmt name) →
  dict_get name (foldl (module_function_stmt unparse) fs l) = dict_get name fs.
Proof.
  revert fs. induction l as [|s l IH]; intros fs Hn; simpl; [done|].
  rewrite IH.
  - assert (¬ defines s name) as Hs by (apply Hn, elem_of_cons; by left).
    destruct s; simpl; try done. simpl in Hs. by rewrite dict_get_set_ne.
  - intros stmt Hin. apply Hn. apply elem_of_cons. by right.
Qed.
End FunctionFacts.

(** X5: for a file that loads, [parse_module_functions] prints nothing
    and returns a dictionary without repeated keys whose keys are exactly
    the names of the [def] statements at the top level of the module;
    functions defined in a class, in another function or under any other
    statement, and [async def] functions, are not listed.  The entry of a
    name comes from the last top-level [def] of that name: its plain
    parameters in order, the text of its return annotation, and the texts
    of its decorators in order, without those that fail to render. *)
Theorem top_level_functions_are_listed
    (unparse : expr → option string)
    (read_text : string → outcome string)
    (ast_parse : string → string → outcome Module_)
    (filepath : string) (tree : Module_) :
  load read_text ast_parse filepath = Returned tree →
  let result :=
    (parse_module_functions unparse read_text ast_parse filepath).1 in
  (parse_module_functions unparse read_text ast_parse filepath).2 = []
  ∧ dict_wf result
  ∧ (∀ name,
       name ∈ keys result
       ↔ ∃ stmt, stmt ∈ mod_body tree ∧ defines stmt name)
  ∧ (∀ before after name fargs body decorator_list returns,
       mod_body tree
       = before ++ FunctionDef name fargs body decorator_list returns :: after →
       (∀ stmt, stmt ∈ after → ¬ defines stmt name) →
       dict_get name result
       = Some (FunctionInfo_
                 (render_param unparse <$> args fargs)
                 (unparse_text unparse returns)
                 (filter (λ s, s ≠ "")
                    ((λ d, default "" (unparse d)) <$> decorator_list)))).
Proof.
  intros Hload result. subst result.
  unfold parse_module_functions. rewrite Hload. simpl.
  split_and!.
  - done.
  - apply module_function_loop_wf, dict_wf_nil.
  - intros name. rewrite module_function_loop_keys.
    split; [intros [|[]%elem_of_nil]; done | auto].
  - intros before after name fargs body decorator_list returns -> Hafter.
    rewrite foldl_app. cbn [foldl].
    rewrite module_function_loop_other by done. simpl.
    rewrite dict_get_set_eq.
    by rewrite function_param_list_spec, decorator_texts_spec.
Qed.

(** X5 at the first module of the sample project. *)
Lemma top_level_functions_are_listed_witness :
  ∃ tree,
    load sample_read sample_parse "proj/a/b/m.py" = Returned tree
    ∧ dict_get "fetch"
        (parse_module_functions sample_unparse sample_read sample_parse
           "proj/a/b/m.py").1
      = Some (FunctionInfo_ ["url: str"] "bytes" ["cached"]).
Proof.
  eexists. split; [reflexivity|].
  pose proof (top_level_functions_are_listed sample_unparse sample_read
                sample_parse "proj/a/b/m.py" _ eq_refl) as H.
  cbv zeta in H. destruct H as (_ & _ & _ & H).
  refine (H [ClassDef "Node" [Assign [Name "left"] (Constant "None")]] []
            "fetch" _ [Pass] [Name "cached"] (Some (Name "bytes")) eq_refl _).
  intros stmt []%elem_of_nil.
Defined.

(** ** Grouping by package *)

Section Grouping.
Context {E : Type}.
Implicit Types (d : dict (list E)) (l : list (string * E)).

Lemma ensure_key_get k k' d :
  default [] (dict_get k' (ensure_key k d)) = default [] (dict_get k' d).
Proof.
  unfold ensure_key. destruct (dict_get k d) eqn:Hk; [done|].
  destruct (decide (k = k')) as [<-|Hne].
  - by rewrite dict_get_set_eq, Hk.
  - by rewrite dict_get_set_ne.
Qed.

Lemma ensure_key_keys k k' d :
  k' ∈ keys (ensure_key k d) ↔ k' = k ∨ k' ∈ keys d.
Proof.
  unfold ensure_key. destruct (dict_get k d) eqn:Hk.
  - apply dict_get_Some_key in Hk. naive_solver.
  - apply elem_keys_dict_set.
Qed.

Lemma ensure_key_present k d : k ∈ keys d → ensure_key k d = d.
Proof.
  intros Hk. unfold ensure_key.
  destruct (dict_get k d) eqn:Hget; [done|].
  by apply dict_get_None in Hget.
Qed.

Lemma ensure_key_wf k d : dict_wf d → dict_wf (ensure_key k d).
Proof.
  unfold ensure_key. destruct (dict_get k d); [done|]. apply dict_wf_set.
Qed.

Lemma group_add_get d k e k' :
  default [] (dict_get k' (group_add d (k, e)))
  = default [] (dict_get k' d) ++ (if decide (k = k') then [e] else []).
Proof.
  unfold group_add, append_to. simpl.
  destruct (decide (k = k')) as [<-|Hne].
  - rewrite dict_get_set_eq. simpl. by rewrite ensure_key_get.
  - rewrite dict_get_set_ne by done. by rewrite ensure_key_get, app_nil_r.
Qed.

Lemma group_add_keys d k e k' :
  k' ∈ keys (group_add d (k, e)) ↔ k' = k ∨ k' ∈ keys d.
Proof.
  unfold group_add, append_to. simpl.
  rewrite elem_keys_dict_set, ensure_key_keys. naive_solver.
Qed.

Lemma group_add_wf d p : dict_wf d → dict_wf (group_add d p).
Proof. intros. by apply dict_wf_set, ensure_key_wf. Qed.

Lemma group_add_no_empty d p :
  no_empty_group d → no_empty_group (group_add d p).
Proof.
  intros Hd k es. destruct p as [k0 e]. unfold group_add, append_to. simpl.
  destruct (decide (k0 = k)) as [<-|Hne].
  - rewrite dict_get_set_eq. intros [= <-]. by destruct (default [] _).
  - rewrite dict_get_set_ne by done. unfold ensure_key.
    destruct (dict_get k0 d) eqn:Hk0; [apply Hd|].
    rewrite dict_get_set_ne by done. apply Hd.
Qed.

Lemma group_all_get d l k :
  default [] (dict_get k (foldl group_add d l))
  = default [] (dict_get k d) ++ (filter (λ p, p.1 = k) l).*2.
Proof.
  revert d. induction l as [|[k0 e] l IH]; intros d; simpl.
  - by rewrite app_nil_r.
  - rewrite IH, group_add_get, filter_cons. simpl.
    destruct (decide (k0 = k)); simpl; by rewrite <- app_assoc.
Qed.

Lemma group_all_keys d l k :
  k ∈ keys (foldl group_add d l) ↔ k ∈ keys d ∨ k ∈ l.*1.
Proof.
  revert d. induction l as [|[k0 e] l IH]; intros d; simpl.
  - split; [auto | intros [|[]%elem_of_nil]; done].
  - rewrite IH, group_add_keys, elem_of_cons. naive_solver.
Qed.

Lemma group_all_wf d l : dict_wf d → dict_wf (foldl group_add d l).
Proof. apply foldl_preserves. intros. by apply group_add_wf. Qed.

Lemma group_all_no_empty d l :
  no_empty_group d → no_empty_group (foldl group_add d l).
Proof. apply foldl_preserves. intros. by apply group_add_no_empty. Qed.

(** Appending to a key that was created before is [group_add]. *)
Lemma append_all_group {X} (mk : X → E) k (xs : list X) d :
  xs ≠ [] →
  foldl (λ pk x, append_to k (mk x) pk) (ensure_key k d) xs
  = foldl group_add d ((λ x, (k, mk x)) <$> xs).
Proof.
  destruct xs as [|x xs]; [done|]. intros _. simpl.
  change (append_to k (mk x) (ensure_key k d)) with (group_add d (k, mk x)).
  assert (k ∈ keys (group_add d (k, mk x))) as Hk.
  { apply group_add_keys. by left. }
  revert Hk. generalize (group_add d (k, mk x)). clear d.
  induction xs as [|y xs IH]; intros d Hk; simpl; [done|].
  assert (append_to k (mk y) d = group_add d (k, mk y)) as ->.
  { unfold group_add. simpl. by rewrite ensure_key_present. }
  apply IH. apply group_add_keys. by left.
Qed.
End Grouping.

(** ** The directory scans *)

Section Scans.
Variable unparse : expr → option string.
Variable read_text : string → outcome string.
Variable ast_parse : string → string → outcome Module_.
Variable relpath : string → string → string.

(** Both parsers print the error line of a file that fails to load
    and nothing else. *)
Lemma parse_python_file_printed filepath :
  (parse_python_file unparse read_text ast_parse filepath).2
  = match load read_text ast_parse filepath with
    | Raised e => [parse_error filepath e]
    | Returned _ => []
    end.
Proof. unfold parse_python_file. by destruct (load _ _ _). Qed.

Lemma parse_module_functions_printed filepath :
  (parse_module_functions unparse read_text ast_parse filepath).2
  = match load read_text ast_parse filepath with
    | Raised e => [parse_error filepath e]
    | Returned _ => []
    end.
Proof. unfold parse_module_functions. by destruct (load _ _ _). Qed.

Lemma parse_directory_file_spec pk dirpath st filename :
  parse_directory_file unparse read_text ast_parse pk dirpath st filename
  = (foldl group_add st.1
       (file_classes_entries unparse read_text ast_parse pk dirpath filename),
     st.2 ++ (if endswith filename ".py"
              then (parse_python_file unparse read_text ast_parse
                      (path_join dirpath filename)).2
              else [])).
Proof.
  destruct st as [packages stdout].
  unfold parse_directory_file, file_classes_entries. simpl.
  destruct (endswith filename ".py"); [|by rewrite app_nil_r].
  destruct (parse_python_file _ _ _ _) as [file_classes printed]. simpl.
  destruct file_classes as [|c file_classes]; [done|].
  cbn [dict_nonempty]. f_equal. unfold items.
  rewrite <- (append_all_group
    (λ c : string * ClassData, ClassEntry_ c.1 c.2 (splitext_root filename)))
    by done.
  generalize (ensure_key pk packages).
  induction (c :: file_classes) as [|[cn dt] l IH]; intros d; simpl; [done|].
  apply IH.
Qed.

Lemma parse_functions_file_spec pk dirpath st filename :
  parse_functions_file unparse read_text ast_parse pk dirpath st filename
  = (foldl group_add st.1
       (file_functions_entries unparse read_text ast_parse pk dirpath filename),
     st.2 ++ (if endswith filename ".py"
              then (parse_module_functions unparse read_text ast_parse
                      (path_join dirpath filename)).2
              else [])).
Proof.
  destruct st as [modules stdout].
  unfold parse_functions_file, file_functions_entries. simpl.
  destruct (endswith filename ".py"); [|by rewrite app_nil_r].
  destruct (parse_module_functions _ _ _ _) as [funcs printed]. simpl.
  by destruct (dict_nonempty funcs).
Qed.
End Scans.

(** A scan whose file step files entries and prints lines yields the
    grouping of all entries and all printed lines, in order. *)
Lemma scan_spec {E}
    (file_step : string → string → dict (list E) * list string → string →
                 dict (list E) * list string)
    (dir_step : dict (list E) * list string →
                string * list string * list string →
                dict (list E) * list string)
    (entries : string → string → string → list (string * E))
    (printed : string → string → list string)
    (package_of : string → string) :
  (∀ pk dp st f,
     file_step pk dp st f
     = (foldl group_add st.1 (entries pk dp f), st.2 ++ printed dp f)) →
  (∀ st d,
     dir_step st d = foldl (file_step (package_of d.1.1) d.1.1) st d.2) →
  ∀ listing st,
    foldl dir_step st listing
    = (foldl group_add st.1
         (listing ≫= λ d, d.2 ≫= entries (package_of d.1.1) d.1.1),
       st.2 ++ (listing ≫= λ d, d.2 ≫= printed d.1.1)).
Proof.
  intros Hfile Hdir.
  assert (∀ pk dp files st,
    foldl (file_step pk dp) st files
    = (foldl group_add st.1 (files ≫= entries pk dp),
       st.2 ++ (files ≫= printed dp))) as Hfiles.
  { intros pk dp files. induction files as [|f files IH]; intros st.
    - destruct st. simpl. by rewrite app_nil_r.
    - cbn [foldl]. rewrite !bind_cons, IH, Hfile. cbn [fst snd].
      rewrite foldl_app. by rewrite (assoc_L (++)). }
  induction listing as [|d listing IH]; intros st.
  - destruct st. simpl. by rewrite app_nil_r.
  - cbn [foldl]. rewrite !bind_cons, IH, Hdir, Hfiles. cbn [fst snd].
    rewrite foldl_app. by rewrite (assoc_L (++)).
Qed.

Section ScanClaims.
Variable unparse : expr → option string.
Variable read_text : string → outcome string.
Variable ast_parse : string → string → outcome Module_.
Variable relpath : string → string → string.
Variable os_walk : string → list (string * list string * list string).

Lemma parse_directory_spec root_dir :
  parse_directory unparse read_text ast_parse relpath os_walk root_dir
  = (foldl group_add []
       (discovered_classes unparse read_text ast_parse relpath os_walk
          root_dir),
     load_errors read_text ast_parse os_walk root_dir).
Proof.
  unfold parse_directory, discovered_classes, load_errors.
  rewrite (scan_spec
    (parse_directory_file unparse read_text ast_parse)
    (parse_directory_dir unparse read_text ast_parse relpath root_dir)
    (file_classes_entries unparse read_text ast_parse)
    (λ dp filename,
       if endswith filename ".py"
       then (parse_python_file unparse read_text ast_parse
               (path_join dp filename)).2
       else [])
    (compute_package_name relpath root_dir)).
  - simpl. f_equal. apply list_bind_ext; [|done]. intros [[dp ds] fs].
    apply list_bind_ext; [|done]. intros f. simpl.
    by rewrite parse_python_file_printed.
  - intros. apply parse_directory_file_spec.
  - by intros st [[dp ds] fs].
Qed.

Lemma parse_directory_module_functions_spec root_dir :
  parse_directory_module_functions unparse read_text ast_parse relpath
    os_walk root_dir
  = (foldl group_add []
       (discovered_modules unparse read_text ast_parse relpath os_walk
          root_dir),
     load_errors read_text ast_parse os_walk root_dir).
Proof.
  unfold parse_directory_module_functions, discovered_modules, load_errors.
  rewrite (scan_spec
    (parse_functions_file unparse read_text ast_parse)
    (parse_functions_dir unparse read_text ast_parse relpath root_dir)
    (file_functions_entries unparse read_text ast_parse)
    (λ dp filename,
       if endswith filename ".py"
       then (parse_module_functions unparse read_text ast_parse
               (path_join dp filename)).2
       else [])
    (compute_package_name relpath root_dir)).
  - simpl. f_equal. apply list_bind_ext; [|done]. intros [[dp ds] fs].
    apply list_bind_ext; [|done]. intros f. simpl.
    by rewrite parse_module_functions_printed.
  - intros. apply parse_functions_file_spec.
  - by intros st [[dp ds] fs].
Qed.

(** What holds of every grouping built from the empty dictionary. *)
Lemma grouping_facts {E} (found : list (string * E)) :
  let result := foldl group_add [] found in
  dict_wf result
  ∧ (∀ pkg, pkg ∈ keys result ↔ pkg ∈ found.*1)
  ∧ (∀ pkg,
       default [] (dict_get pkg result) = (filter (λ p, p.1 = pkg) found).*2)
  ∧ (∀ pkg entries, (pkg, entries) ∈ result → entries ≠ []).
Proof.
  intros result. subst result.
  assert (dict_wf (foldl group_add [] found)) as Hwf
    by apply group_all_wf, dict_wf_nil.
  split_and!.
  - done.
  - intros pkg. rewrite group_all_keys.
    split; [intros [[]%elem_of_nil|]; done | auto].
  - intros pkg. by rewrite group_all_get.
  - intros pkg entries Hin. apply elem_dict_get in Hin; [|done].
    revert Hin. apply group_all_no_empty. by intros k es.
Qed.
End ScanClaims.

Lemma parse_module_functions_wf unparse read_text ast_parse filepath :
  dict_wf (parse_module_functions unparse read_text ast_parse filepath).1.
Proof.
  unfold parse_module_functions. destruct (load _ _ _); simpl.
  - apply module_function_loop_wf, dict_wf_nil.
  - apply dict_wf_nil.
Qed.


(** X7: [parse_directory_module_functions] groups the modules of the
    tree by package and keeps discovery order: one entry for each file
    ending in [.py] with at least one top-level function, under the package
    of its directory.  The aggregate repeats no package and holds no
    package without entries, and every entry has at least one function and
    repeats no function name. *)
Theorem modules_are_grouped_by_package
    (unparse : expr → option string)
    (read_text : string → outcome string)
    (ast_parse : string → string → outcome Module_)
    (relpath : string → string → string)
    (os_walk : string → list (string * list string * list string))
    (root_dir : string) :
  let result :=
    (parse_directory_module_functions unparse read_text ast_parse relpath
       os_walk root_dir).1 in
  let found :=
    discovered_modules unparse read_text ast_parse relpath os_walk root_dir in
  dict_wf result
  ∧ (∀ pkg, pkg ∈ keys result ↔ pkg ∈ found.*1)
  ∧ (∀ pkg,
       default [] (dict_get pkg result) = (filter (λ p, p.1 = pkg) found).*2)
  ∧ (∀ pkg entries, (pkg, entries) ∈ result → entries ≠ [])
  ∧ (∀ pkg entries e,
       (pkg, entries) ∈ result → e ∈ entries →
       functions e ≠ [] ∧ dict_wf (functions e)).
Proof.
  intros result found. subst result found.
  rewrite parse_directory_module_functions_spec. cbn [fst].
  destruct (grouping_facts
    (discovered_modules unparse read_text ast_parse relpath os_walk root_dir))
    as (Hwf & Hkeys & Hget & Hne).
  split_and!; [done..|].
  intros pkg entries e Hin He.
  apply elem_dict_get in Hin; [|done].
  specialize (Hget pkg). rewrite Hin in Hget. simpl in Hget. subst entries.
  apply list_elem_of_fmap in He as ([pk e'] & -> & Hp). simpl.
  apply list_elem_of_filter in Hp as [_ Hp].
  unfold discovered_modules in Hp.
  apply list_elem_of_bind in Hp as (d & Hp & _).
  apply list_elem_of_bind in Hp as (f & Hp & _).
  unfold file_functions_entries in Hp.
  destruct (endswith f ".py"); [|by apply elem_of_nil in Hp].
  cbv zeta in Hp.
  destruct (dict_nonempty _) eqn:Hn; [|by apply elem_of_nil in Hp].
  apply list_elem_of_singleton in Hp as [= _ ->]. simpl.
  split; [|apply parse_module_functions_wf].
  intros Hnil. rewrite Hnil in Hn. discriminate.
Qed.

(** X8: each directory scan prints one error line for every file
    ending in [.py] that fails to load, in discovery order, and nothing
    else; the two scans of a run print the same lines, so a run reports
    each such file twice. *)
Theorem scans_print_the_load_errors
    (unparse : expr → option string)
    (read_text : string → outcome string)
    (ast_parse : string → string → outcome Module_)
    (relpath : string → string → string)
    (os_walk : string → list (string * list string * list string))
    (root_dir : string) :
  (parse_directory unparse read_text ast_parse relpath os_walk root_dir).2
  = load_errors read_text ast_parse os_walk root_dir
  ∧ (parse_directory_module_functions unparse read_text ast_parse relpath
       os_walk root_dir).2
    = load_errors read_text ast_parse os_walk root_dir.
Proof.
  by rewrite parse_directory_spec, parse_directory_module_functions_spec.
Qed.

(** ** Further properties of the class extractor *)


(** X10: a statement of a class body that is not an assignment, an
    annotated assignment or a [def] leaves the class record as it is:
    nothing inside a nested class, an [async def] or a conditional or loop
    of the class body reaches the record of the class. *)
Theorem other_statements_do_not_reach_the_record
    (unparse : expr → option string) (before after : list node)
    (stmt : node) :
  passed_over stmt →
  class_record unparse (before ++ stmt :: after)
  = class_record unparse (before ++ after).
Proof.
  intros Hs. rewrite !class_record_locals. unfold class_locals.
  rewrite !foldl_app. cbn [foldl].
  assert (∀ st, class_level_stmt st stmt = st) as ->
    by (intros; destruct stmt; done).
  assert (∀ st, method_stmt unparse st stmt = st) as ->
    by (intros; destruct stmt; done).
  done.
Qed.

(** X10 at a class nested in the body of [settings_body]'s class. *)
Lemma other_statements_do_not_reach_the_record_witness :
  passed_over (ClassDef "Inner" [Assign [Name "depth"] (Constant "1")])
  ∧ class_record sample_unparse
      (settings_body
       ++ ClassDef "Inner" [Assign [Name "depth"] (Constant "1")] :: [])
    = class_record sample_unparse (settings_body ++ []).
Proof.
  split; [exact I|].
  exact (other_statements_do_not_reach_the_record sample_unparse
           settings_body []
           (ClassDef "Inner" [Assign [Name "depth"] (Constant "1")]) I).
Defined.

(** ** Package names *)

Lemma replace_sep_chars s : "/"%char ∉ chars (replace_sep s).
Proof.
  unfold chars. induction s as [|c s IH]; simpl.
  - apply not_elem_of_nil.
  - apply not_elem_of_cons. split; [|done].
    case_decide; [done | congruence].
Qed.

Lemma replace_sep_length s : String.length (replace_sep s) = String.length s.
Proof. induction s as [|c s IH]; simpl; [done|]. by rewrite IH. Qed.

Lemma replace_sep_id s : "/"%char ∉ chars s → replace_sep s = s.
Proof.
  unfold chars. induction s as [|c s IH]; simpl; [done|].
  rewrite not_elem_of_cons. intros [Hc Hs]. rewrite IH by done.
  case_decide; [by subst | done].
Qed.

(** X11: a package name never contains the path separator.  The
    directory whose relative path is [.] is the package [root]; any other
    directory has the package name of the length of its relative path,
    which is the relative path itself when that holds no separator: the
    directories [a/b] and [a.b] are one package, and so are the root and a
    directory [root] in it. *)
Theorem package_names_hold_no_separator
    (relpath : string → string → string) (root_dir current_dir : string) :
  let rel_path := relpath current_dir root_dir in
  let package := compute_package_name relpath root_dir current_dir in
  ("/"%char ∉ chars package)
  ∧ (rel_path = "." → package = "root")
  ∧ (rel_path ≠ "." →
     String.length package = String.length rel_path
     ∧ ("/"%char ∉ chars rel_path → package = rel_path)).
Proof.
  intros rel_path package. subst rel_path package.
  unfold compute_package_name. split_and!.
  - case_decide; [|apply replace_sep_chars].
    vm_compute. intros Hin.
    repeat (apply elem_of_cons in Hin as [Hin|Hin]; [discriminate|]).
    by apply elem_of_nil in Hin.
  - intros ->. by rewrite decide_True.
  - intros Hne. rewrite decide_False by done.
    split; [apply replace_sep_length | apply replace_sep_id].
Qed.

(** ** Module names *)

Lemma rfind_from_absent c s i : c ∉ chars s → rfind_from c s i = None.
Proof.
  unfold chars. revert i. induction s as [|a s IH]; intros i; simpl; [done|].
  rewrite not_elem_of_cons. intros [Hc Hs]. rewrite IH by done.
  by rewrite decide_False.
Qed.

Lemma rfind_from_dot_py stem i :
  rfind_from "."%char (stem +:+ ".py") i = Some (i + String.length stem).
Proof.
  revert i. induction stem as [|a stem IH]; intros i.
  - simpl. f_equal. lia.
  - rewrite string_app_cons. cbn [rfind_from String.length].
    rewrite IH. f_equal. lia.
Qed.

Lemma chars_app s t : chars (s +:+ t) = chars s ++ chars t.
Proof.
  unfold chars. induction s as [|a s IH]; [done|].
  rewrite string_app_cons. simpl. by rewrite IH.
Qed.

Lemma substring_app_l s t : String.substring 0 (String.length s) (s +:+ t) = s.
Proof.
  induction s as [|a s IH].
  - simpl. by destruct t.
  - rewrite string_app_cons. simpl. by rewrite IH.
Qed.

Lemma forallb_seq_S (f : nat → bool) a n :
  forallb f (seq (S a) n) = forallb (λ i, f (S i)) (seq a n).
Proof.
  revert a. induction n as [|n IH]; intros a; simpl; [done|]. by rewrite IH.
Qed.

Lemma forallb_get_app c s t :
  forallb (λ i, bool_decide (String.get i (s +:+ t) = Some c))
          (seq 0 (String.length s))
  = forallb (λ a, bool_decide (a = c)) (chars s).
Proof.
  unfold chars. induction s as [|a s IH]; [done|].
  rewrite string_app_cons.
  cbn [String.length seq forallb String.list_ascii_of_string].
  rewrite forallb_seq_S. cbn [String.get]. rewrite IH. f_equal.
  apply bool_decide_ext. split; [by intros [= ->] | by intros ->].
Qed.

Lemma string_rev_app_spec s acc : String.rev_app s acc = String.rev s +:+ acc.
Proof.
  unfold String.rev. revert acc. induction s as [|a s IH]; intros acc; [done|].
  simpl. rewrite IH, (IH (String a "")). by rewrite string_app_assoc.
Qed.

Lemma string_rev_app s t : String.rev (s +:+ t) = String.rev t +:+ String.rev s.
Proof.
  induction s as [|a s IH].
  - simpl. by rewrite string_app_nil_r.
  - rewrite string_app_cons. unfold String.rev at 1 3. simpl.
    rewrite !string_rev_app_spec, IH. by rewrite string_app_assoc.
Qed.

(** X12: the module name of a file [stem.py].  The file passes the
    test [filename.endswith('.py')]; its module name is [stem], unless
    [stem] is empty or made of dots only, in which case the module name is
    the whole file name, extension included. *)
Theorem module_name_drops_the_extension (stem : string) :
  "/"%char ∉ chars stem →
  endswith (stem +:+ ".py") ".py" = true
  ∧ splitext_root (stem +:+ ".py")
    = if forallb (λ a, bool_decide (a = "."%char)) (chars stem)
      then stem +:+ ".py" else stem.
Proof.
  intros Hsep. split.
  - unfold endswith. rewrite string_rev_app.
    by destruct (String.rev stem).
  - unfold splitext_root, rfind.
    rewrite rfind_from_dot_py, rfind_from_absent.
    + simpl. rewrite Nat.sub_0_r, forallb_get_app.
      destruct (forallb _ _); [done|]. apply substring_app_l.
    + rewrite chars_app. rewrite not_elem_of_app. split; [done|].
      vm_compute. intros Hin.
      repeat (apply elem_of_cons in Hin as [Hin|Hin]; [discriminate|]).
      by apply elem_of_nil in Hin.
Qed.

(** X12 at [m.py] and, for the other case, at the file name [.py]. *)
Lemma module_name_drops_the_extension_witness :
  ("/"%char ∉ chars "m")
  ∧ (endswith "m.py" ".py" = true ∧ splitext_root "m.py" = "m")
  ∧ (endswith ".py" ".py" = true ∧ splitext_root ".py" = ".py").
Proof.
  assert (∀ s, chars s = [] ∨ chars s = ["m"%char] → "/"%char ∉ chars s)
    as Hno.
  { intros s [-> | ->]; [apply not_elem_of_nil|].
    apply not_elem_of_cons. split; [discriminate | apply not_elem_of_nil]. }
  split; [apply Hno; by right|]. split.
  - exact (module_name_drops_the_extension "m" (Hno "m" (or_intror eq_refl))).
  - exact (module_name_drops_the_extension "" (Hno "" (or_introl eq_refl))).
Defined.

(** ** Site content *)

Section SiteFacts.
Variable read_text : string → outcome string.
Variable relpath : string → string → string.
Variable os_walk : string → list (string * list string * list string).

Lemma parse_site_files_spec root_dir dirpath filenames site_files :
  foldl (parse_site_file read_text relpath root_dir dirpath)
    site_files filenames
  = site_files
    ++ (site_record read_text relpath root_dir dirpath
        <$> filter (λ file, site_extension file = true) filenames).
Proof.
  revert site_files. induction filenames as [|f fs IH]; intros site_files.
  - simpl. by rewrite app_nil_r.
  - cbn [foldl]. rewrite IH, filter_cons. unfold parse_site_file, site_record.
    destruct (site_extension f); case_decide; try done.
    by rewrite fmap_cons, <- app_assoc.
Qed.

(** X13: [parse_site_content] lists every file whose name ends in
    [.html], [.js] or [.css], once, in discovery order, and no other file.
    A file that cannot be read is listed as well, with the text of the
    error in place of its content. *)
Theorem site_files_are_all_listed (root_dir : string) :
  parse_site_content read_text relpath os_walk root_dir
  = os_walk root_dir ≫= λ d,
      site_record read_text relpath root_dir d.1.1
      <$> filter (λ file, site_extension file = true) d.2.
Proof.
  unfold parse_site_content.
  enough (∀ listing acc,
    foldl (λ site_files (d : string * list string * list string),
             let '(dirpath, _, filenames) := d in
             foldl (parse_site_file read_text relpath root_dir dirpath)
                   site_files filenames) acc listing
    = acc ++ (listing ≫= λ d,
                site_record read_text relpath root_dir d.1.1
                <$> filter (λ file, site_extension file = true) d.2)) as H
    by apply (H _ []).
  induction listing as [|[[dp ds] fs] listing IH]; intros acc.
  - simpl. by rewrite app_nil_r.
  - cbn [foldl]. rewrite IH, parse_site_files_spec, bind_cons.
    by rewrite <- app_assoc.
Qed.
End SiteFacts.

(** The site files of the sample listing: the unreadable script is
    listed with the error text, the text file is not listed. *)
Lemma site_files_of_the_sample :
  parse_site_content site_read site_relpath site_walk "site"
  = [SiteFile_ "index.html" "<html></html>";
     SiteFile_ "static/app.js"
       "Error reading file: [Errno 13] Permission denied"].
Proof. vm_compute. reflexivity. Qed.

(** X14: the site document lists the files in ascending order of
    their paths, and two lists of files with pairwise distinct paths that
    differ in order only give the same document. *)
Theorem site_document_is_sorted_by_path
    (len : string → nat) (site_files site_files' : list SiteFile) :
  NoDup (path <$> site_files) →
  site_files ≡ₚ site_files' →
  let listed := sorted_by path site_files in
  listed ≡ₚ site_files
  ∧ StronglySorted (key_le path) listed
  ∧ site_doc_lines len site_files
    = ["Site Content Documentation"; rule; ""]
      ++ (listed ≫= site_file_lines len)
  ∧ generate_site_content_doc len site_files'
    = generate_site_content_doc len site_files.
Proof.
  intros Hnd Hperm listed. subst listed. split_and!.
  - apply sorted_by_Permutation.
  - apply sorted_by_StronglySorted.
  - done.
  - unfold generate_site_content_doc, site_doc_lines.
    by rewrite (sorted_by_perm path _ _ Hnd Hperm).
Qed.

(** X14 at two files listed in two orders. *)
Lemma site_document_is_sorted_by_path_witness :
  let a := SiteFile_ "index.html" "<html></html>" in
  let b := SiteFile_ "static/app.js" "run()" in
  NoDup (path <$> [b; a])
  ∧ [b; a] ≡ₚ [a; b]
  ∧ generate_site_content_doc String.length [a; b]
    = generate_site_content_doc String.length [b; a].
Proof.
  intros a b.
  assert (NoDup (path <$> [b; a])) as Hnd.
  { simpl. apply NoDup_cons. split.
    - intros [H|H]%elem_of_cons; [discriminate | by apply elem_of_nil in H].
    - apply NoDup_singleton. }
  assert ([b; a] ≡ₚ [a; b]) as Hperm by apply Permutation_swap.
  split; [done|]. split; [done|].
  exact (proj2 (proj2 (proj2
    (site_document_is_sorted_by_path String.length [b; a] [a; b]
       Hnd Hperm)))).
Defined.

(** ** Blocks of the diagram *)

Lemma count_lines_app t l1 l2 :
  count_lines t (l1 ++ l2) = count_lines t l1 + count_lines t l2.
Proof. unfold count_lines. by rewrite filter_app, length_app. Qed.

Lemma count_lines_nil t : count_lines t [] = 0.
Proof. done. Qed.

Lemma count_lines_cons t x l :
  count_lines t (x :: l) = (if t x then 1 else 0) + count_lines t l.
Proof.
  unfold count_lines. rewrite filter_cons.
  destruct (t x); case_decide; done.
Qed.

Lemma count_lines_none {A} t (f : A → string) l :
  (∀ x, t (f x) = false) → count_lines t (f <$> l) = 0.
Proof.
  intros Hf. induction l as [|x l IH]; [done|].
  by rewrite fmap_cons, count_lines_cons, Hf, IH.
Qed.

Lemma count_lines_bind {A} t (f : A → list string) n l :
  (∀ x, count_lines t (f x) = n x) →
  count_lines t (l ≫= f) = sum_list (n <$> l).
Proof.
  intros Hf. induction l as [|x l IH]; [done|].
  by rewrite bind_cons, count_lines_app, Hf, IH.
Qed.

Lemma prefix_app_l p x : String.prefix p (p +:+ x) = true.
Proof.
  induction p as [|a p IH]; [by destruct x|].
  rewrite string_app_cons. simpl.
  destruct (Ascii.ascii_dec a a); [done | congruence].
Qed.

(** The tests for the opening and the closing line of a class block
    and of a package block. *)
Lemma method_line_tests glyph m :
  String.prefix "  class " (method_line glyph m) = false
  ∧ String.eqb "  }" (method_line glyph m) = false
  ∧ String.prefix "package " (method_line glyph m) = false
  ∧ String.eqb "}" (method_line glyph m) = false.
Proof.
  destruct m as [method info]. unfold method_line.
  by destruct (nonempty (return_type info)).
Qed.

Lemma class_lines_counts counts entry :
  count_lines (String.prefix "  class ") (class_lines counts entry) = 1
  ∧ count_lines (String.eqb "  }") (class_lines counts entry) = 1
  ∧ count_lines (String.prefix "package ") (class_lines counts entry) = 0
  ∧ count_lines (String.eqb "}") (class_lines counts entry) = 0.
Proof.
  unfold class_lines.
  assert (String.prefix "  class "
            ("  class " +:+ display_name counts entry +:+ " {") = true)
    as Hopen by apply prefix_app_l.
  split_and!;
    rewrite !count_lines_app, !count_lines_cons;
    rewrite !count_lines_none
      by (intros; first [done | apply method_line_tests]);
    rewrite ?Hopen; done.
Qed.

Lemma package_lines_counts p :
  count_lines (String.prefix "  class ") (package_lines p) = length p.2
  ∧ count_lines (String.eqb "  }") (package_lines p) = length p.2
  ∧ count_lines (String.prefix "package ") (package_lines p) = 1
  ∧ count_lines (String.eqb "}") (package_lines p) = 1.
Proof.
  destruct p as [pkg entries]. unfold package_lines. simpl.
  set (counts := Counter _).
  assert (String.prefix "package " ("package " +:+ pkg +:+ " {") = true)
    as Hopen by apply prefix_app_l.
  assert (∀ n : nat, sum_list ((λ _ : ClassEntry, n) <$> entries)
                     = n * length entries) as Hsum.
  { intros n. induction entries as [|e es IH]; [simpl; lia|].
    rewrite fmap_cons. cbn [sum_list sum_list_with length].
    fold (sum_list ((λ _ : ClassEntry, n) <$> es)).
    rewrite IH, Nat.mul_succ_r. unfold id. lia. }
  split_and!;
    rewrite !count_lines_cons, !count_lines_app, !count_lines_cons,
      !count_lines_nil.
  - rewrite (count_lines_bind _ _ (λ _, 1))
      by (intros; apply class_lines_counts).
    rewrite Hsum. simpl. lia.
  - rewrite (count_lines_bind _ _ (λ _, 1))
      by (intros; apply class_lines_counts).
    rewrite Hsum. simpl. lia.
  - rewrite (count_lines_bind _ _ (λ _, 0))
      by (intros; apply class_lines_counts).
    rewrite Hsum, Hopen. simpl. lia.
  - rewrite (count_lines_bind _ _ (λ _, 0))
      by (intros; apply class_lines_counts).
    rewrite Hsum. simpl. lia.
Qed.

(** The strings that [generate_plantuml] joins: one opening string
    [package ...] and one closing string [}] for each package of the
    aggregate, and one opening string [  class ...] and one closing string
    [  }] for each class entry. *)
Lemma uml_lines_block_counts (packages : dict (list ClassEntry)) :
  let lines := uml_lines packages in
  let classes := sum_list ((λ p, length p.2) <$> packages) in
  count_lines (String.prefix "package ") lines = length packages
  ∧ count_lines (String.eqb "}") lines = length packages
  ∧ count_lines (String.prefix "  class ") lines = classes
  ∧ count_lines (String.eqb "  }") lines = classes.
Proof.
  intros lines classes. subst lines classes. unfold uml_lines, items.
  assert (sum_list ((λ _ : string * list ClassEntry, 1) <$> packages)
          = length packages) as Hone.
  { induction packages as [|p ps IH]; [done|].
    rewrite fmap_cons. cbn [sum_list sum_list_with length].
    fold (sum_list ((λ _ : string * list ClassEntry, 1) <$> ps)).
    by rewrite IH. }
  split_and!; rewrite !count_lines_app.
  - rewrite (count_lines_bind _ _ (λ _, 1))
      by (intros; apply package_lines_counts).
    rewrite Hone. vm_compute (count_lines _ uml_header).
    vm_compute (count_lines _ ["@enduml"]). lia.
  - rewrite (count_lines_bind _ _ (λ _, 1))
      by (intros; apply package_lines_counts).
    rewrite Hone. vm_compute (count_lines _ uml_header).
    vm_compute (count_lines _ ["@enduml"]). lia.
  - rewrite (count_lines_bind _ _ (λ p, length p.2))
      by (intros; apply package_lines_counts).
    vm_compute (count_lines _ uml_header).
    vm_compute (count_lines _ ["@enduml"]). lia.
  - rewrite (count_lines_bind _ _ (λ p, length p.2))
      by (intros; apply package_lines_counts).
    vm_compute (count_lines _ uml_header).
    vm_compute (count_lines _ ["@enduml"]). lia.
Qed.

(** ** Nested classes that share a name *)


(** ** The lines of the diagram text *)

Lemma no_line_feed_app s t :
  no_line_feed (s +:+ t) = no_line_feed s && no_line_feed t.
Proof.
  induction s as [|c s IH]; [done|].
  rewrite string_app_cons. simpl. by rewrite IH, andb_assoc.
Qed.

Lemma forallb_Forall {A} (f : A → bool) l :
  forallb f l = true ↔ Forall (λ x, f x = true) l.
Proof.
  induction l as [|x l IH]; simpl.
  - split; [constructor | done].
  - rewrite andb_true_iff, IH, Forall_cons. done.
Qed.

Lemma no_line_feed_join sep l :
  no_line_feed sep = true → forallb no_line_feed l = true →
  no_line_feed (join sep l) = true.
Proof.
  intros Hsep. unfold join. induction l as [|x l IH]; [done|].
  simpl. intros [Hx Hl]%andb_true_iff. destruct l as [|y l]; [done|].
  rewrite !no_line_feed_app, Hx, Hsep. by apply IH.
Qed.

Lemma split_lines_line_feed text :
  split_lines (LF +:+ text) = "" :: split_lines text.
Proof. done. Qed.

Lemma split_lines_app s text :
  no_line_feed s = true →
  split_lines (s +:+ text)
  = (s +:+ hd "" (split_lines text)) :: tl (split_lines text).
Proof.
  induction s as [|c s IH].
  - intros _. by destruct text as [|c text]; simpl;
      [|destruct (Ascii.eqb c _)].
  - rewrite !string_app_cons. cbn [no_line_feed split_lines].
    intros [Hc Hs]%andb_true_iff. rewrite (IH Hs).
    apply negb_true_iff in Hc. by rewrite Hc.
Qed.

(** Splitting the joined text gives the joined lines back when no line
    holds a line feed. *)
Lemma split_lines_join l :
  l ≠ [] → Forall (λ x, no_line_feed x = true) l →
  split_lines (join LF l) = l.
Proof.
  unfold join. induction l as [|x l IH]; [done|]. intros _ Hl.
  apply Forall_cons in Hl as [Hx Hl]. destruct l as [|y l].
  - simpl. rewrite <- (string_app_nil_r x) at 1.
    rewrite split_lines_app by done. simpl. by rewrite string_app_nil_r.
  - change (String.concat LF (x :: y :: l))
      with (x +:+ LF +:+ String.concat LF (y :: l)).
    rewrite split_lines_app by done. rewrite split_lines_line_feed. simpl.
    rewrite string_app_nil_r. f_equal. by apply IH.
Qed.

Ltac plain_string :=
  rewrite ?no_line_feed_app, ?andb_true_iff;
  repeat split; try reflexivity; try assumption.

Lemma method_line_plain glyph m :
  no_line_feed glyph = true → plain_method m = true →
  no_line_feed (method_line glyph m) = true.
Proof.
  destruct m as [method info]. unfold plain_method, method_line. simpl.
  rewrite !andb_true_iff. intros Hg [[Hm Hp] Hr].
  assert (no_line_feed (join ", " (params info)) = true) as Hj
    by by apply no_line_feed_join.
  destruct (nonempty (return_type info)); plain_string.
Qed.

Lemma class_lines_plain counts entry :
  plain_entry entry = true →
  Forall (λ x, no_line_feed x = true) (class_lines counts entry).
Proof.
  unfold plain_entry, class_lines. rewrite !andb_true_iff, !forallb_Forall.
  intros [[[[[Hn Hm] Ha] Hp] Hms] Hps].
  assert (no_line_feed (display_name counts entry) = true) as Hd.
  { unfold display_name. case_decide; plain_string. }
  repeat (apply Forall_app; split); try apply Forall_fmap.
  - apply Forall_singleton. plain_string.
  - eapply Forall_impl; [exact Ha|]. intros x Hx. simpl. plain_string.
  - eapply Forall_impl; [exact Hp|]. intros x Hx. simpl. plain_string.
  - eapply Forall_impl; [exact Hms|]. intros x Hx. simpl.
    by apply method_line_plain.
  - eapply Forall_impl; [exact Hps|]. intros x Hx. simpl.
    by apply method_line_plain.
  - by apply Forall_singleton.
Qed.

Lemma uml_lines_plain packages :
  plain_aggregate packages = true →
  Forall (λ x, no_line_feed x = true) (uml_lines packages).
Proof.
  unfold plain_aggregate, uml_lines, items. rewrite forallb_Forall.
  intros Hp. repeat (apply Forall_app; split).
  - by repeat constructor.
  - apply Forall_bind. eapply Forall_impl; [exact Hp|].
    intros [pkg entries]. cbn [fst snd]. rewrite andb_true_iff, forallb_Forall.
    intros [Hpkg He]. unfold package_lines.
    repeat (apply Forall_app; split).
    + apply Forall_singleton. plain_string.
    + apply Forall_bind. eapply Forall_impl; [exact He|].
      intros e. apply class_lines_plain.
    + by apply Forall_singleton.
  - by apply Forall_singleton.
Qed.

(** X15: the blocks of the diagram are balanced.  When no name or
    signature text of the aggregate holds a line feed, the lines of the
    text that [generate_plantuml] returns are the strings it joined, and
    they hold one opening line [package ...] and one closing line [}] for
    each package of the aggregate, and one opening line [  class ...] and
    one closing line [  }] for each class entry; no attribute or method
    line is taken for either. *)
Theorem diagram_blocks_are_balanced (packages : dict (list ClassEntry)) :
  plain_aggregate packages = true →
  let lines := split_lines (generate_plantuml packages) in
  let classes := sum_list ((λ p, length p.2) <$> packages) in
  lines = uml_lines packages
  ∧ count_lines (String.prefix "package ") lines = length packages
  ∧ count_lines (String.eqb "}") lines = length packages
  ∧ count_lines (String.prefix "  class ") lines = classes
  ∧ count_lines (String.eqb "  }") lines = classes.
Proof.
  intros Hplain lines classes. subst lines classes.
  unfold generate_plantuml. rewrite split_lines_join.
  - split; [done|]. apply uml_lines_block_counts.
  - unfold uml_lines. simpl. done.
  - by apply uml_lines_plain.
Qed.

(** X15 at a package with two classes. *)
Lemma diagram_blocks_are_balanced_witness :
  plain_aggregate small_diagram = true
  ∧ split_lines (generate_plantuml small_diagram)
    = uml_header
      ++ ["package shop {";
          "  class Cart {"; "    + items"; "    - _total";
          "    + add(item: Item, count) : None"; "    - _sum()"; "  }";
          "  class Item {"; "  }";
          "}"; "@enduml"]
  ∧ count_lines (String.prefix "  class ")
      (split_lines (generate_plantuml small_diagram)) = 2
  ∧ count_lines (String.eqb "  }")
      (split_lines (generate_plantuml small_diagram)) = 2.
Proof.
  split; [reflexivity|].
  pose proof (diagram_blocks_are_balanced small_diagram eq_refl) as H.
  cbv zeta in H. destruct H as (Hlines & _ & _ & Hopen & Hclose).
  split; [|split].
  - rewrite Hlines. reflexivity.
  - exact Hopen.
  - exact Hclose.
Defined.

(** ** What a call of a renderer leaves behind *)

Section ProgramFacts.
Context {O : Type}.

Lemma appends_append line : appends (O := O) (append line) [line].
Proof. by intros s. Qed.

Lemma appends_seq (m k : @prog O unit) l1 l2 :
  appends m l1 → appends k l2 → appends (m >> k) (l1 ++ l2).
Proof.
  intros Hm Hk s. unfold bind. rewrite Hm, Hk. simpl.
  by rewrite <- app_assoc.
Qed.

Lemma appends_for_each {X} (l : list X) (body : X → @prog O unit)
    (f : X → list string) :
  (∀ x, appends (body x) (f x)) → appends (for_each l body) (l ≫= f).
Proof.
  intros Hbody. induction l as [|x l IH].
  - intros s. simpl. unfold ret. rewrite app_nil_r. by destruct s.
  - rewrite bind_cons. cbn [for_each]. by apply appends_seq.
Qed.

Lemma appends_for_each_append {X} (l : list X) (line : X → string) :
  appends (O := O) (for_each l (λ x, append (line x))) (line <$> l).
Proof.
  induction l as [|x l IH].
  - intros s. simpl. unfold ret. rewrite app_nil_r. by destruct s.
  - cbn [for_each]. rewrite fmap_cons.
    apply (appends_seq _ _ [_]); [apply appends_append | done].
Qed.

Lemma run_seq {A} (m : @prog O unit) (k : @prog O A) lines s :
  appends m lines → (m >> k) s = k (s.1, s.2 ++ lines).
Proof. intros Hm. unfold bind. by rewrite Hm. Qed.
End ProgramFacts.

Lemma generate_plantuml_program_appends (packages : dict (list ClassEntry)) :
  appends (O := dict (list ClassEntry))
    (for_each (items packages) (λ p,
       let '(pkg, class_entries) := p in
       append ("package " +:+ pkg +:+ " {") >>
       (let class_name_counts := Counter (class_name <$> class_entries) in
        for_each class_entries (λ entry,
          let d := data entry in
          append ("  class " +:+ display_name class_name_counts entry
                  +:+ " {") >>
          for_each (data_attributes d) (λ attr, append ("    + " +:+ attr)) >>
          for_each (data_private_attributes d)
            (λ attr, append ("    - " +:+ attr)) >>
          for_each (items (data_methods d))
            (λ m, append (method_line "+" m)) >>
          for_each (items (data_private_methods d))
            (λ m, append (method_line "-" m)) >>
          append "  }")) >>
       append "}"))
    (items packages ≫= package_lines).
Proof.
  apply appends_for_each. intros [pkg class_entries]. unfold package_lines.
  apply (appends_seq _ _ [_]); [apply appends_append|].
  apply appends_seq; [|apply appends_append].
  apply appends_for_each. intros entry. unfold class_lines.
  apply (appends_seq _ _ [_]); [apply appends_append|].
  repeat (apply appends_seq; [apply appends_for_each_append|]).
  apply appends_append.
Qed.

Lemma generate_module_functions_doc_program_appends
    (modules : dict (list ModuleEntry)) :
  appends (O := dict (list ModuleEntry))
    (for_each (sorted_items modules) (λ p,
       let '(pkg, module_entries) := p in
       append ("Package: " +:+ pkg) >>
       for_each (sorted_by entry_module module_entries) (λ entry,
         append ("  Module: " +:+ entry_module entry) >>
         for_each (sorted_items (functions entry))
           (λ f, append ("    - " +:+ signature f)) >>
         append "") >>
       append ""))
    (sorted_items modules ≫= package_doc_lines).
Proof.
  apply appends_for_each. intros [pkg module_entries].
  unfold package_doc_lines.
  apply (appends_seq _ _ [_]); [apply appends_append|].
  apply appends_seq; [|apply appends_append].
  apply appends_for_each. intros entry. unfold module_lines.
  apply (appends_seq _ _ [_]); [apply appends_append|].
  apply appends_seq; [|apply appends_append].
  apply (appends_for_each_append _ function_line).
Qed.

(** C9: rendering an aggregate twice gives the same text, for the
    diagram and for the listing.  A call of a renderer leaves the
    aggregate it was handed as it found it, so the second call runs on the
    same aggregate, and it starts from a new local list; its text is the
    text of the first call, byte for byte. *)
Theorem rendering_twice_gives_the_same_text
    (packages : dict (list ClassEntry)) (modules : dict (list ModuleEntry)) :
  let first := generate_plantuml_call packages in
  let second := generate_plantuml_call first.2 in
  let first_doc := generate_module_functions_doc_call modules in
  let second_doc := generate_module_functions_doc_call first_doc.2 in
  first.2 = packages
  ∧ second.1 = first.1
  ∧ first.1 = generate_plantuml packages
  ∧ first_doc.2 = modules
  ∧ second_doc.1 = first_doc.1
  ∧ first_doc.1 = generate_module_functions_doc modules.
Proof.
  assert (∀ p, generate_plantuml_call p = (generate_plantuml p, p)) as Huml.
  { intros p. unfold generate_plantuml_call, call, generate_plantuml_program.
    unfold bind at 1. unfold argument. cbn [fst].
    rewrite (run_seq _ _ _ _ (generate_plantuml_program_appends p)).
    rewrite (run_seq _ _ _ _ (appends_append "@enduml")).
    unfold joined. cbn [fst snd]. unfold generate_plantuml, uml_lines.
    by rewrite <- app_assoc. }
  assert (∀ m, generate_module_functions_doc_call m
               = (generate_module_functions_doc m, m)) as Hdoc.
  { intros m. unfold generate_module_functions_doc_call, call,
      generate_module_functions_doc_program.
    unfold bind at 1. unfold argument. cbn [fst].
    rewrite (run_seq _ _ _ _ (generate_module_functions_doc_program_appends m)).
    unfold joined. by cbn [fst snd]. }
  intros first second first_doc second_doc.
  subst first second first_doc second_doc.
  by rewrite !Huml, !Hdoc.
Qed.

(** For contrast, a call whose body assigns to the object hands the
    caller another object than it was given. *)
Lemma a_call_that_assigns_changes_the_object :
  call [] (assign [("late", [])] >> joined) ([] : dict (list ClassEntry))
  = ("", [("late", [])]).
Proof. reflexivity. Qed.
